(** * Retail Analytics Copilot: orchestration graph, validator, executor

    A shallow embedding of the Python sources

    - [agent/graph_hybrid.py]   (state, nodes, routing, validation/repair),
    - [agent/dspy_signatures.py] (Router / NL2SQL / Synthesizer wrappers),
    - [agent/tools/sqlite_tool.py] (execute_sql),
    - [run_agent_hybrid.py]     (batch driver),

    together with the properties the specification states about them.

    Modelling conventions.
    - Python [str] is [string]; text is taken to be ASCII, so the character
      classes below (whitespace, word characters, digits, case folding) are
      the ASCII parts of the Unicode classes Python uses.
    - Python [float] is [pyfloat]: NaN, the two infinities, or a finite value
      given by the rational it denotes.  Only comparisons are performed on
      floats in the modelled code.
    - Values typed [Any] in the source (outputs of the language model) and the
      external collaborators (language model, retriever, SQLite engine) are
      fields of the [Runtime] class; they thread an explicit [World]. *)

From Stdlib Require Import ZArith QArith Ascii String.
From stdpp Require Import base option list gmap strings pretty.

Local Open Scope nat_scope.
Set Warnings "-register-all".

(** ** Python strings *)

Module Py.

(** [str.isspace] on one ASCII character: TAB..CR, FS..US and SPACE. *)
Definition isspace (c : ascii) : bool :=
  let n := nat_of_ascii c in
  ((9 <=? n) && (n <=? 13)) || ((28 <=? n) && (n <=? 32)).

Definition isdigit (c : ascii) : bool :=
  let n := nat_of_ascii c in (48 <=? n) && (n <=? 57).

Definition isupper (c : ascii) : bool :=
  let n := nat_of_ascii c in (65 <=? n) && (n <=? 90).

Definition islower (c : ascii) : bool :=
  let n := nat_of_ascii c in (97 <=? n) && (n <=? 122).

(** [\w] of the [re] module, ASCII part. *)
Definition isword (c : ascii) : bool :=
  isupper c || islower c || isdigit c || Ascii.eqb c "_".

Definition upper_char (c : ascii) : ascii :=
  if islower c then ascii_of_nat (nat_of_ascii c - 32) else c.

Definition lower_char (c : ascii) : ascii :=
  if isupper c then ascii_of_nat (nat_of_ascii c + 32) else c.

Fixpoint map_chars (f : ascii → ascii) (s : string) : string :=
  match s with
  | EmptyString => EmptyString
  | String c s' => String (f c) (map_chars f s')
  end.

Definition upper : string → string := map_chars upper_char.
Definition lower : string → string := map_chars lower_char.

(** [s.startswith(p)] *)
Fixpoint startswith (p s : string) : bool :=
  match p, s with
  | EmptyString, _ => true
  | String _ _, EmptyString => false
  | String a p', String b s' => Ascii.eqb a b && startswith p' s'
  end.

(** [s[n:]] *)
Fixpoint drop (n : nat) (s : string) : string :=
  match n, s with
  | 0, _ => s
  | S _, EmptyString => EmptyString
  | S n', String _ s' => drop n' s'
  end.

(** [s[:n]] *)
Fixpoint take (n : nat) (s : string) : string :=
  match n, s with
  | 0, _ => EmptyString
  | S _, EmptyString => EmptyString
  | S n', String c s' => String c (take n' s')
  end.

(** [s[:-n]] for [n > 0] *)
Definition drop_last (n : nat) (s : string) : string :=
  take (String.length s - n) s.

(** [s.endswith(p)] *)
Definition endswith (p s : string) : bool :=
  (String.length p <=? String.length s)
  && String.eqb (drop (String.length s - String.length p) s) p.

Fixpoint lstrip (s : string) : string :=
  match s with
  | EmptyString => EmptyString
  | String c s' => if isspace c then lstrip s' else s
  end.

Fixpoint rstrip (s : string) : string :=
  match s with
  | EmptyString => EmptyString
  | String c s' =>
      match rstrip s' with
      | EmptyString => if isspace c then EmptyString else String c EmptyString
      | r => String c r
      end
  end.

(** [s.strip()] *)
Definition strip (s : string) : string := rstrip (lstrip s).

(** [needle in s] *)
Fixpoint contains (needle s : string) : bool :=
  startswith needle s
  || match s with
     | EmptyString => false
     | String _ s' => contains needle s'
     end.

(** [s.replace(c, "")] for a one-character [c] *)
Fixpoint remove_char (c : ascii) (s : string) : string :=
  match s with
  | EmptyString => EmptyString
  | String d s' =>
      if Ascii.eqb c d then remove_char c s' else String d (remove_char c s')
  end.

(** [s.split(c)] for a one-character separator: never returns [[]]. *)
Fixpoint split (c : ascii) (s : string) : list string :=
  match s with
  | EmptyString => [EmptyString]
  | String d s' =>
      if Ascii.eqb c d then EmptyString :: split c s'
      else match split c s' with
           | [] => [String d EmptyString]
           | w :: ws => String d w :: ws
           end
  end.

(** [sep.join(parts)] *)
Definition join (sep : string) (parts : list string) : string :=
  String.concat sep parts.

(** Truthiness of a [str]: non-empty. *)
Definition truthy (s : string) : bool :=
  match s with EmptyString => false | _ => true end.

End Py.

(** ** Python floats, as far as the code compares them *)

Inductive pyfloat : Type :=
  | FNaN
  | FNegInf
  | FFin (q : Q)
  | FPosInf.

Module PyFloat.

(** [a < b]; every comparison with NaN is false. *)
Definition lt (a b : pyfloat) : bool :=
  match a, b with
  | FNaN, _ | _, FNaN => false
  | _, FNegInf => false
  | FNegInf, _ => true
  | FPosInf, _ => false
  | FFin _, FPosInf => true
  | FFin x, FFin y => negb (Qle_bool y x)
  end.

(** The builtin [min(a, b)]: [a] unless [b < a]. *)
Definition min (a b : pyfloat) : pyfloat := if lt b a then b else a.

(** The builtin [max(a, b)]: [a] unless [b > a]. *)
Definition max (a b : pyfloat) : pyfloat := if lt a b then b else a.

Definition zero : pyfloat := FFin 0.
Definition one : pyfloat := FFin 1.
Definition half : pyfloat := FFin (1 # 2).

(** [0.0 <= f <= 1.0] *)
Definition in_unit_interval (f : pyfloat) : Prop :=
  match f with
  | FFin q => (0 <= q)%Q ∧ (q <= 1)%Q
  | _ => False
  end.

End PyFloat.

(** ** Exceptions and the outside world

    A Python computation that may raise and that acts on the outside world
    [W] (the language model, the document index, the SQLite connection):
    [inl msg] is a raised exception whose [str(e)] is [msg]. *)

Definition M (W A : Type) : Type := W → (string + A) * W.

Global Instance M_ret {W} : MRet (M W) := λ A a w, (inr a, w).

Global Instance M_bind {W} : MBind (M W) := λ A B k m w,
  match m w with
  | (inr a, w') => k a w'
  | (inl e, w') => (inl e, w')
  end.

Definition raise {W A} (msg : string) : M W A := λ w, (inl msg, w).

(** [try: body  except Exception as e: handler(str(e))] *)
Definition try_except {W A} (body : M W A) (handler : string → M W A) : M W A :=
  λ w, match body w with
       | (inr a, w') => (inr a, w')
       | (inl e, w') => handler e w'
       end.

(** A pure step that may raise. *)
Definition lift {W A} (r : string + A) : M W A := λ w, (r, w).

(** ** Records exchanged with the collaborators *)

Module DocChunk.
(** [agent/rag/retrieval.py], dataclass [DocChunk]; also the shape of the
    entries of [retrieved_chunks]. *)
Record t : Type := mk {
  id : string;
  source : string;
  content : string;
  score : pyfloat;
}.
End DocChunk.

Module Prediction.
(** What [dspy.Predict(SynthesizerSignature)] returns; every field is
    whatever the model produced. *)
Record t (V : Type) : Type := mk {
  final_answer : V;
  citations : V;
  confidence : V;
  explanation : V;
}.
Arguments mk {V}.
Arguments final_answer {V}.
Arguments citations {V}.
Arguments confidence {V}.
Arguments explanation {V}.
End Prediction.

Module Cursor.
(** A [sqlite3] cursor after [execute]: the column names of
    [cursor.description] ([None] for a statement that returns no rows) and
    what [fetchall()] yields. *)
Record t (V : Type) : Type := mk {
  description : option (list string);
  fetchall : list (list V);
}.
Arguments mk {V}.
Arguments description {V}.
Arguments fetchall {V}.
End Cursor.

(** The Python builtins applied to model output, and the collaborators. *)
Class Runtime : Type := {
  (** values typed [Any] *)
  PyObj : Type;
  py_of_str : string → PyObj;
  (** [str(x)] *)
  py_str : PyObj → string;
  (** [float(x)]; [None] when it raises *)
  py_float : PyObj → option pyfloat;
  (** [isinstance(x, str)], with the text when it is one *)
  py_as_str : PyObj → option string;
  (** whether [json.dumps(x)] returns *)
  json_serializable : PyObj → bool;
  (** values stored in SQLite columns *)
  SqlVal : Type;
  (** [json.dumps(rows, indent=2)] *)
  json_dumps_rows : list (gmap string SqlVal) → string;
  (** state of everything outside the agent *)
  World : Type;
  (** [dspy.Predict(RouterSignature)(question=...)].mode *)
  router_predict : string → M World string;
  (** [dspy.Predict(NL2SQLSignature)(question, constraints, db_schema)].sql *)
  nl2sql_predict : string → string → string → M World string;
  (** [dspy.Predict(SynthesizerSignature)(question, format_hint,
      retrieved_docs, sql_rows, sql)] *)
  synthesizer_predict :
    string → string → string → string → string → M World (Prediction.t PyObj);
  (** [RAGRetriever.retrieve(query, k)] *)
  rag_retrieve : string → nat → M World (list DocChunk.t);
  (** [SQLiteTool.get_schema_summary()] *)
  get_schema_summary : M World string;
  (** [self.conn.cursor()] followed by [cursor.execute(sql)] *)
  cursor_execute : string → M World (Cursor.t SqlVal);
  (** [self.conn.commit()] *)
  conn_commit : M World unit;
}.

(** ** [agent/tools/sqlite_tool.py] *)

Module SQLiteTool.

(** The dictionary [execute_sql] returns. *)
Record result {RT : Runtime} : Type := mk {
  columns : list string;
  rows : list (gmap string SqlVal);
  error : option string;
}.

Section WithRuntime.
Context {RT : Runtime}.

(** [for idx, col in enumerate(columns): row_dict[col] = row[idx]] *)
Fixpoint fill_row (cols : list string) (idx : nat) (row : list SqlVal)
    (row_dict : gmap string SqlVal) : string + gmap string SqlVal :=
  match cols with
  | [] => inr row_dict
  | col :: cols' =>
      match row !! idx with
      | Some v => fill_row cols' (S idx) row (<[col := v]> row_dict)
      | None => inl "Index out of range"
      end
  end.

(** [for row in cursor.fetchall(): ...; rows.append(row_dict)] *)
Fixpoint fetch_rows (cols : list string) (fetched : list (list SqlVal))
    : string + list (gmap string SqlVal) :=
  match fetched with
  | [] => inr []
  | row :: fetched' =>
      match fill_row cols 0 row ∅ with
      | inl e => inl e
      | inr d =>
          match fetch_rows cols fetched' with
          | inl e => inl e
          | inr ds => inr (d :: ds)
          end
      end
  end.

(** [sql.strip().upper().startswith('SELECT')] *)
Definition is_select (sql : string) : bool :=
  Py.startswith "SELECT" (Py.upper (Py.strip sql)).

(** The body of the [try]. *)
Definition execute_sql_body (sql : string) : M World result :=
  cursor ← cursor_execute sql;
  if is_select sql then
    match Cursor.description cursor with
    | None => raise "'NoneType' object is not iterable"
    | Some cols =>
        rs ← lift (fetch_rows cols (Cursor.fetchall cursor));
        mret {| columns := cols; rows := rs; error := None |}
    end
  else
    (_ ← conn_commit;
     mret {| columns := []; rows := []; error := None |}).

Definition execute_sql (sql : string) : M World result :=
  try_except (execute_sql_body sql)
    (λ e, mret {| columns := []; rows := []; error := Some e |}).

End WithRuntime.
End SQLiteTool.

(** ** [agent/dspy_signatures.py] *)

Section Signatures.
Context {RT : Runtime}.

(** [Router.forward] *)
Definition Router_forward (question : string) : M World string :=
  raw ← router_predict question;
  let mode := Py.strip (Py.lower raw) in
  mret (if bool_decide (mode ∈ ["rag"; "sql"; "hybrid"]) then mode else "hybrid").

(** [NL2SQL.forward] *)
Definition NL2SQL_forward (question constraints schema : string) : M World string :=
  raw ← nl2sql_predict question constraints schema;
  mret (Py.strip raw).

(** [[c.strip() for c in citations_str.split(',') if '::' in c]], or [[]]
    when the model's output is not a [str]. *)
Definition parse_citations (raw : PyObj) : list string :=
  match py_as_str raw with
  | Some citations_str =>
      Py.strip <$> filter (λ c, Py.contains "::" c = true) (Py.split "," citations_str)
  | None => []
  end.

(** [try: max(0.0, min(1.0, float(x)))  except: 0.5] *)
Definition parse_confidence (raw : PyObj) : pyfloat :=
  match py_float raw with
  | Some confidence => PyFloat.max PyFloat.zero (PyFloat.min PyFloat.one confidence)
  | None => PyFloat.half
  end.

(** The dictionary [Synthesizer.forward] returns. *)
Record Synthesis : Type := {
  syn_final_answer : PyObj;
  syn_citations : list string;
  syn_confidence : pyfloat;
  syn_explanation : PyObj;
}.

(** [Synthesizer.forward] *)
Definition Synthesizer_forward
    (question format_hint retrieved_docs sql_rows sql : string) : M World Synthesis :=
  result ← synthesizer_predict question format_hint retrieved_docs sql_rows sql;
  mret {| syn_final_answer := Prediction.final_answer result;
          syn_citations := parse_citations (Prediction.citations result);
          syn_confidence := parse_confidence (Prediction.confidence result);
          syn_explanation := Prediction.explanation result |}.

End Signatures.

(** ** The date pattern of the planner

    [re.findall(r'\b(January|...|December)\s+\d{4}\b', content, re.IGNORECASE)]:
    the list of the texts matched by the group, left to right, without
    overlap. *)

Module DateRe.

Definition months : list string :=
  ["January"; "February"; "March"; "April"; "May"; "June"; "July";
   "August"; "September"; "October"; "November"; "December"].

(** A literal, ignoring case; the text after it. *)
Fixpoint match_literal (lit s : string) : option string :=
  match lit, s with
  | EmptyString, _ => Some s
  | String _ _, EmptyString => None
  | String a lit', String b s' =>
      if Ascii.eqb (Py.lower_char a) (Py.lower_char b)
      then match_literal lit' s' else None
  end.

Definition isword_at (s : string) : bool :=
  match s with String c _ => Py.isword c | EmptyString => false end.

(** [\b] between the previous character and the text that follows. *)
Definition word_boundary (prev : option ascii) (s : string) : bool :=
  xorb (from_option Py.isword false prev) (isword_at s).

(** [\s+\d{4}\b]; the text after it.  The run of whitespace is taken whole:
    a shorter run leaves a whitespace character where a digit must be. *)
Definition match_tail (s : string) : option string :=
  match s with
  | String c s' =>
      if Py.isspace c then
        match Py.lstrip s' with
        | String d1 (String d2 (String d3 (String d4 rest))) =>
            if Py.isdigit d1 && Py.isdigit d2 && Py.isdigit d3 && Py.isdigit d4
               && negb (isword_at rest)
            then Some rest else None
        | _ => None
        end
      else None
  | EmptyString => None
  end.

(** The alternatives in order; the group's text and the length of the match. *)
Fixpoint match_months (ms : list string) (s : string) : option (string * nat) :=
  match ms with
  | [] => None
  | m :: ms' =>
      match match_literal m s ≫= match_tail with
      | Some rest =>
          Some (Py.take (String.length m) s, String.length s - String.length rest)
      | None => match_months ms' s
      end
  end.

Definition match_at (prev : option ascii) (s : string) : option (string * nat) :=
  if word_boundary prev s then match_months months s else None.

(** Scan; [skip] characters still belong to the previous match. *)
Fixpoint scan (skip : nat) (prev : option ascii) (s : string) : list string :=
  match s with
  | EmptyString => []
  | String c s' =>
      match skip with
      | S k => scan k (Some c) s'
      | 0 =>
          match match_at prev s with
          | Some (group, len) => group :: scan (len - 1) (Some c) s'
          | None => scan 0 (Some c) s'
          end
      end
  end.

Definition findall (content : string) : list string := scan 0 None content.

End DateRe.

(** ** [agent/graph_hybrid.py]: state and trace *)

(** The dictionaries appended to [trace], one shape per node. *)
Inductive TraceEntry : Type :=
  | TrRouter (mode question_preview : string)
  | TrRetriever (num_chunks : nat) (chunk_ids : list string)
  | TrPlanner (constraints : string)
  | TrNl2sql (sql : string) (attempt : nat)
  | TrExecutor (success : bool) (num_rows : nat) (error : option string)
  | TrSynthesizer (confidence : pyfloat) (num_citations : nat)
  | TrValidate (issues : list string) (done : bool) (attempts : nat).

Definition is_execution (e : TraceEntry) : bool :=
  match e with TrExecutor _ _ _ => true | _ => false end.

(** Number of executor entries in a trace. *)
Definition executions (tr : list TraceEntry) : nat :=
  length (filter (λ e, is_execution e = true) tr).

Module State.
(** [AgentState].  [run] initialises every key, so no [state.get] default
    is ever used; [sql_result] is [None] while it is the empty dictionary. *)
Record t {RT : Runtime} : Type := mk {
  id : string;
  question : string;
  format_hint : string;
  mode : string;
  retrieved_chunks : list DocChunk.t;
  constraints : string;
  sql : string;
  sql_result : option SQLiteTool.result;
  attempts : nat;
  final_answer : PyObj;
  citations : list string;
  confidence : pyfloat;
  explanation : PyObj;
  done : bool;
  trace : list TraceEntry;
}.
End State.

(** One key of the dictionary a node returns. *)
Inductive Write {RT : Runtime} : Type :=
  | WMode (mode : string)
  | WRetrievedChunks (chunks : list DocChunk.t)
  | WConstraints (constraints : string)
  | WSql (sql : string)
  | WSqlResult (result : SQLiteTool.result)
  | WAttempts (attempts : nat)
  | WFinalAnswer (answer : PyObj)
  | WCitations (citations : list string)
  | WConfidence (confidence : pyfloat)
  | WExplanation (explanation : PyObj)
  | WDone (done : bool)
  | WTrace (entries : list TraceEntry).

Inductive Node : Type :=
  | router | retriever | planner | nl2sql | executor | synthesizer
  | validate_and_repair | END.

Global Instance Node_eq_dec : EqDecision Node.
Proof. solve_decision. Defined.

Section Graph.
Context {RT : Runtime}.

Definition w_mode (w : Write) := match w with WMode x => Some x | _ => None end.
Definition w_chunks (w : Write) := match w with WRetrievedChunks x => Some x | _ => None end.
Definition w_constraints (w : Write) := match w with WConstraints x => Some x | _ => None end.
Definition w_sql (w : Write) := match w with WSql x => Some x | _ => None end.
Definition w_sql_result (w : Write) := match w with WSqlResult x => Some x | _ => None end.
Definition w_attempts (w : Write) := match w with WAttempts x => Some x | _ => None end.
Definition w_final_answer (w : Write) := match w with WFinalAnswer x => Some x | _ => None end.
Definition w_citations (w : Write) := match w with WCitations x => Some x | _ => None end.
Definition w_confidence (w : Write) := match w with WConfidence x => Some x | _ => None end.
Definition w_explanation (w : Write) := match w with WExplanation x => Some x | _ => None end.
Definition w_done (w : Write) := match w with WDone x => Some x | _ => None end.
Definition w_trace (w : Write) := match w with WTrace x => x | _ => [] end.

(** The value written for one key, if the node wrote it. *)
Definition written {A} (sel : Write → option A) (ws : list Write) : option A :=
  last (omap sel ws).

(** How the graph folds a node's dictionary into the state: a written key
    replaces the old value; [trace] is annotated with [operator.add], so
    what is written is appended. *)
Definition merge (st : State.t) (ws : list Write) : State.t :=
  {| State.id := State.id st;
     State.question := State.question st;
     State.format_hint := State.format_hint st;
     State.mode := default (State.mode st) (written w_mode ws);
     State.retrieved_chunks := default (State.retrieved_chunks st) (written w_chunks ws);
     State.constraints := default (State.constraints st) (written w_constraints ws);
     State.sql := default (State.sql st) (written w_sql ws);
     State.sql_result :=
       match written w_sql_result ws with
       | Some r => Some r
       | None => State.sql_result st
       end;
     State.attempts := default (State.attempts st) (written w_attempts ws);
     State.final_answer := default (State.final_answer st) (written w_final_answer ws);
     State.citations := default (State.citations st) (written w_citations ws);
     State.confidence := default (State.confidence st) (written w_confidence ws);
     State.explanation := default (State.explanation st) (written w_explanation ws);
     State.done := default (State.done st) (written w_done ws);
     State.trace := State.trace st ++ concat (w_trace <$> ws) |}.

(** [sql_result.get("error")] with its truthiness: a non-empty message. *)
Definition result_error (r : option SQLiteTool.result) : option string :=
  match r ≫= SQLiteTool.error with
  | Some e => if Py.truthy e then Some e else None
  | None => None
  end.

(** [sql_result.get("rows")], [[]] standing for every falsy value. *)
Definition result_rows (r : option SQLiteTool.result) : list (gmap string SqlVal) :=
  from_option SQLiteTool.rows [] r.

(** *** Routing *)

Definition _route_after_router (st : State.t) : Node :=
  if bool_decide (State.mode st ∈ ["rag"; "hybrid"]) then retriever else planner.

Definition _route_after_planner (st : State.t) : Node :=
  if bool_decide (State.mode st ∈ ["sql"; "hybrid"]) then nl2sql else synthesizer.

Definition _route_after_validation (st : State.t) : Node :=
  if State.done st then END
  else if 2 <=? State.attempts st then END
  else if result_error (State.sql_result st) is Some _ then nl2sql
  else synthesizer.

(** *** Nodes *)

Definition router_node (st : State.t) : M World (list Write) :=
  let question := State.question st in
  mode ← Router_forward question;
  mret [WMode mode; WTrace [TrRouter mode (Py.take 100 question)]].

Definition retriever_node (st : State.t) : M World (list Write) :=
  chunks ← rag_retrieve (State.question st) 4;
  mret [WRetrievedChunks chunks;
        WTrace [TrRetriever (length chunks) (DocChunk.id <$> chunks)]].

(** The parts one chunk contributes to [constraints_parts]. *)
Definition chunk_constraints (chunk : DocChunk.t) : list string :=
  let content := DocChunk.content chunk in
  let dates := DateRe.findall content in
  (match dates with
   | [] => []
   | _ => ["Relevant dates: " +:+ Py.join ", " dates]
   end)
  ++ (if Py.contains "Formula:" content || Py.contains "SELECT" content
      then ["KPI formula found in " +:+ DocChunk.source chunk] else []).

Definition planner_constraints (chunks : list DocChunk.t) : string :=
  let constraints_parts := chunks ≫= chunk_constraints in
  match constraints_parts with
  | [] => "No specific constraints"
  | _ => Py.join "; " constraints_parts
  end.

Definition planner_node (st : State.t) : M World (list Write) :=
  let constraints := planner_constraints (State.retrieved_chunks st) in
  mret [WConstraints constraints; WTrace [TrPlanner constraints]].

(** [state.get("sql_result", {}).get("error", "")] inside an f-string. *)
Definition prev_error (st : State.t) : string :=
  match State.sql_result st with
  | None => ""
  | Some r => default "None" (SQLiteTool.error r)
  end.

(** The constraints handed to [NL2SQL.forward]. *)
Definition nl2sql_constraints (st : State.t) : string :=
  if 0 <? State.attempts st then
    State.constraints st
      +:+ " Previous SQL failed with: " +:+ prev_error st +:+ ". Please fix the SQL."
  else State.constraints st.

(** The clean-up of the generated SQL. *)
Definition clean_sql (sql : string) : string :=
  let sql := Py.strip sql in
  let sql := if Py.startswith "```sql" sql then Py.drop 6 sql else sql in
  let sql := if Py.startswith "```" sql then Py.drop 3 sql else sql in
  let sql := if Py.endswith "```" sql then Py.drop_last 3 sql else sql in
  Py.strip sql.

Definition nl2sql_node (st : State.t) : M World (list Write) :=
  schema ← get_schema_summary;
  generated ← NL2SQL_forward (State.question st) (nl2sql_constraints st) schema;
  let sql := clean_sql generated in
  mret [WSql sql; WTrace [TrNl2sql sql (State.attempts st + 1)]].

Definition executor_node (st : State.t) : M World (list Write) :=
  result ← SQLiteTool.execute_sql (State.sql st);
  mret [WSqlResult result;
        WAttempts (State.attempts st + 1);
        WTrace [TrExecutor (bool_decide (SQLiteTool.error result = None))
                           (length (SQLiteTool.rows result))
                           (SQLiteTool.error result)]].

Definition newline : string := String "010" EmptyString.

Definition render_docs (chunks : list DocChunk.t) : string :=
  match chunks with
  | [] => "No documents retrieved"
  | _ =>
      Py.join (newline +:+ newline)
        ((λ c, "[" +:+ DocChunk.id c +:+ "] "
               +:+ Py.take 200 (DocChunk.content c) +:+ "...") <$> chunks)
  end.

Definition render_rows (sql_result : option SQLiteTool.result) : string :=
  match result_error sql_result with
  | Some e => "SQL Error: " +:+ e
  | None =>
      match result_rows sql_result with
      | [] => "No SQL results"
      | rows => json_dumps_rows (take 5 rows)
      end
  end.

Definition synthesizer_node (st : State.t) : M World (list Write) :=
  result ← Synthesizer_forward (State.question st) (State.format_hint st)
             (render_docs (State.retrieved_chunks st))
             (render_rows (State.sql_result st))
             (State.sql st);
  mret [WFinalAnswer (syn_final_answer result);
        WCitations (syn_citations result);
        WConfidence (syn_confidence result);
        WExplanation (syn_explanation result);
        WTrace [TrSynthesizer (syn_confidence result)
                              (length (syn_citations result))]].

(** *** The validator *)

(** [float(str(final_answer).replace('$', '').replace(',', ''))] returns. *)
Definition answer_is_number (final_answer : PyObj) : bool :=
  bool_decide (is_Some
    (py_float (py_of_str
       (Py.remove_char "," (Py.remove_char "$" (py_str final_answer)))))).

Definition format_issues (st : State.t) : list string :=
  if String.eqb (State.format_hint st) "number"
  then (if answer_is_number (State.final_answer st) then []
        else ["Answer should be a number"])
  else [].

Definition json_issues (st : State.t) : list string :=
  if json_serializable (State.final_answer st) then []
  else ["Answer is not JSON serializable"].

Definition citation_issues (st : State.t) : list string :=
  if bool_decide (State.mode st ∈ ["rag"; "hybrid"])
     && bool_decide (State.citations st = [])
  then ["Missing citations"] else [].

Definition sql_issues (st : State.t) : list string :=
  if bool_decide (State.mode st ∈ ["sql"; "hybrid"]) then
    match result_error (State.sql_result st) with
    | Some e => ["SQL error: " +:+ e]
    | None =>
        match result_rows (State.sql_result st) with
        | [] => ["SQL returned no rows"]
        | _ => []
        end
    end
  else [].

(** The list [issues] at the end of [validate_and_repair_node]. *)
Definition validation_issues (st : State.t) : list string :=
  format_issues st ++ json_issues st ++ citation_issues st ++ sql_issues st.

Definition validate_and_repair_node (st : State.t) : M World (list Write) :=
  let issues := validation_issues st in
  let done := bool_decide (issues = []) || (2 <=? State.attempts st) in
  mret [WDone done; WTrace [TrValidate issues done (State.attempts st)]].

(** *** The compiled graph *)

Definition node_fn (n : Node) : State.t → M World (list Write) :=
  match n with
  | router => router_node
  | retriever => retriever_node
  | planner => planner_node
  | nl2sql => nl2sql_node
  | executor => executor_node
  | synthesizer => synthesizer_node
  | validate_and_repair => validate_and_repair_node
  | END => λ _, mret []
  end.

(** The edge taken from [n] once its writes are merged. *)
Definition next_node (n : Node) (st : State.t) : Node :=
  match n with
  | router => _route_after_router st
  | retriever => planner
  | planner => _route_after_planner st
  | nl2sql => executor
  | executor => synthesizer
  | synthesizer => validate_and_repair
  | validate_and_repair => _route_after_validation st
  | END => END
  end.

Definition step (n : Node) (st : State.t) : M World (Node * State.t) :=
  ws ← node_fn n st;
  let st' := merge st ws in
  mret (next_node n st', st').

(** How an invocation of the graph can end. *)
Inductive Run : Type :=
  | Finished (st : State.t) (w : World)
  | Raised (msg : string) (w : World)
  | StepLimit.

(** [graph.invoke], bounded by a number of node executions. *)
Fixpoint invoke (limit : nat) (n : Node) (st : State.t) (w : World) : Run :=
  match n with
  | END => Finished st w
  | _ =>
      match limit with
      | 0 => StepLimit
      | S limit' =>
          match step n st w with
          | (inr (n', st'), w') => invoke limit' n' st' w'
          | (inl e, w') => Raised e w'
          end
      end
  end.

Definition initial_state (question_id question format_hint : string) : State.t :=
  {| State.id := question_id;
     State.question := question;
     State.format_hint := format_hint;
     State.mode := "";
     State.retrieved_chunks := [];
     State.constraints := "";
     State.sql := "";
     State.sql_result := None;
     State.attempts := 0;
     State.final_answer := py_of_str "";
     State.citations := [];
     State.confidence := PyFloat.zero;
     State.explanation := py_of_str "";
     State.done := false;
     State.trace := [] |}.

(** [HybridAgent.run] up to the projection of the final state. *)
Definition run (limit : nat) (question_id question format_hint : string)
    (w : World) : Run :=
  invoke limit router (initial_state question_id question format_hint) w.

(** Configurations the graph passes through: [reaches c c'] when [c']
    follows [c] after some number of node executions, none of which raised. *)
Inductive reaches : Node * State.t * World → Node * State.t * World → Prop :=
  | reaches_refl c : reaches c c
  | reaches_step c n st w n' st' w' :
      reaches c (n, st, w) →
      n ≠ END →
      step n st w = (inr (n', st'), w') →
      reaches c (n', st', w').

(** The configuration [run] starts from. *)
Definition start_config (question_id question format_hint : string)
    (w : World) : Node * State.t * World :=
  (router, initial_state question_id question format_hint, w).

(** [k] node executions from a configuration, when none raises and the
    graph has not ended before. *)
Fixpoint steps (k : nat) (c : Node * State.t * World)
    : option (Node * State.t * World) :=
  match k with
  | 0 => Some c
  | S k' =>
      let '(n, st, w) := c in
      if decide (n = END) then None
      else match step n st w with
           | (inr (n', st'), w') => steps k' (n', st', w')
           | (inl _, _) => None
           end
  end.

(** What holds of a configuration once the router has answered [m]. *)
Record routed (m : string) (n : Node) (st : State.t) : Prop := {
  routed_mode : State.mode st = m;
  routed_valid : m ∈ ["rag"; "sql"; "hybrid"];
  routed_count : State.attempts st = executions (State.trace st);
  routed_cap : State.attempts st ≤ 2;
  routed_rag :
    m = "rag" →
    n ≠ nl2sql ∧ n ≠ executor ∧ State.sql st = ""
    ∧ State.sql_result st = None ∧ State.attempts st = 0;
  routed_sql :
    m = "sql" → n ≠ retriever ∧ State.retrieved_chunks st = [];
  routed_fresh :
    n = retriever ∨ n = planner → State.attempts st = 0;
  routed_budget :
    n = nl2sql ∨ n = executor → State.attempts st < 2;
  routed_past : n ≠ router;
}.

(** The invariant of a run on [question]: still at the start, or routed. *)
Definition inv (question_id question format_hint : string) (w0 : World)
    (c : Node * State.t * World) : Prop :=
  c = start_config question_id question format_hint w0
  ∨ ∃ m w1, Router_forward question w0 = (inr m, w1) ∧ routed m c.1.1 c.1.2.

(** A chunk in which the planner finds neither a date nor a formula marker. *)
Definition no_hint (chunk : DocChunk.t) : Prop :=
  DateRe.findall (DocChunk.content chunk) = []
  ∧ Py.contains "Formula:" (DocChunk.content chunk) = false
  ∧ Py.contains "SELECT" (DocChunk.content chunk) = false.

End Graph.

(** ** [run_agent_hybrid.py]: the batch driver *)

Module Batch.

(** What [json.loads] yields; a number keeps its literal. *)
Inductive json : Type :=
  | JNull
  | JBool (b : bool)
  | JNumber (literal : string)
  | JString (s : string)
  | JArray (items : list json)
  | JObject (members : list (string * json)).

(** One line of the output file. *)
Record record {RT : Runtime} : Type := mk {
  id : json;
  question : json;
  final_answer : PyObj;
  citations : list string;
  confidence : pyfloat;
  explanation : PyObj;
  trace : list TraceEntry;
}.

Section Driver.
Context {RT : Runtime}.

(** [agent.run(question_id, question, format_hint)], which may raise. *)
Variable agent_run : json → json → json → M World record.

(** [question[:60]] in the progress message: only a string or a list can
    be sliced. *)
Definition preview (question : json) : string + unit :=
  match question with
  | JString _ | JArray _ => inr ()
  | _ => inl "TypeError"
  end.

(** The record appended when the run raised. *)
Definition error_record (question_id question : json) (e : string) : record :=
  {| id := question_id;
     question := question;
     final_answer := py_of_str "Error processing question";
     citations := [];
     confidence := PyFloat.zero;
     explanation := py_of_str e;
     trace := [] |}.

(** One iteration of the loop over [enumerate(questions, 1)]: the record
    it appends to [results]. *)
Definition process_item (idx : nat) (item : gmap string json) : M World record :=
  let question_id := default (JString ("q" +:+ pretty idx)) (item !! "id") in
  let question := default (JString "") (item !! "question") in
  let format_hint := default (JString "text") (item !! "format_hint") in
  _ ← lift (preview question);
  try_except (agent_run question_id question format_hint)
             (λ e, mret (error_record question_id question e)).

(** A record the loop can preview: [question] is absent or is text. *)
Definition textual (item : gmap string json) : Prop :=
  item !! "question" = None ∨ ∃ s, item !! "question" = Some (JString s).

Fixpoint process_from (idx : nat) (questions : list (gmap string json))
    : M World (list record) :=
  match questions with
  | [] => mret []
  | item :: rest =>
      r ← process_item idx item;
      rs ← process_from (S idx) rest;
      mret (r :: rs)
  end.

(** The list [results] that [process_batch] writes out, one line each. *)
Definition process_batch (questions : list (gmap string json))
    : M World (list record) :=
  process_from 1 questions.

End Driver.
End Batch.

(** ** A scripted runtime

    Model output is text, the collaborators answer from a fixed script, and
    the world is the log of what the SQLite connection was asked to do. *)

Module Script.

(** [float(s)] for a [str]: surrounding whitespace, a sign, then [inf],
    [infinity], [nan] (any case) or a decimal literal with optional
    fraction and exponent.  Digit-group underscores are not recognised. *)
Fixpoint span_digits (s : string) : string * string :=
  match s with
  | String c s' =>
      if Py.isdigit c then let '(ds, r) := span_digits s' in (String c ds, r)
      else (EmptyString, s)
  | EmptyString => (EmptyString, EmptyString)
  end.

Fixpoint digits_value (acc : Z) (ds : string) : Z :=
  match ds with
  | String c ds' => digits_value (10 * acc + Z.of_nat (nat_of_ascii c - 48)) ds'
  | EmptyString => acc
  end.

Definition read_sign (s : string) : bool * string :=
  match s with
  | String "-" r => (true, r)
  | String "+" r => (false, r)
  | _ => (false, s)
  end.

Definition read_exponent (s : string) : option Z :=
  match s with
  | EmptyString => Some 0%Z
  | String c r =>
      if Ascii.eqb (Py.lower_char c) "e" then
        let '(neg, r) := read_sign r in
        match span_digits r with
        | (String d ds, EmptyString) =>
            let e := digits_value 0 (String d ds) in
            Some (if neg then (- e)%Z else e)
        | _ => None
        end
      else None
  end.

Definition read_magnitude (s : string) : option pyfloat :=
  let low := Py.lower s in
  if String.eqb low "inf" || String.eqb low "infinity" then Some FPosInf
  else if String.eqb low "nan" then Some FNaN
  else
    let '(ip, r1) := span_digits s in
    let '(fp, r2) :=
      match r1 with
      | String "." r => span_digits r
      | _ => (EmptyString, r1)
      end in
    match ip +:+ fp with
    | EmptyString => None
    | mantissa =>
        e ← read_exponent r2;
        Some (FFin (inject_Z (digits_value 0 mantissa)
                    * Qpower (10 # 1) (e - Z.of_nat (String.length fp))))
    end.

Definition negate (f : pyfloat) : pyfloat :=
  match f with
  | FNaN => FNaN
  | FNegInf => FPosInf
  | FPosInf => FNegInf
  | FFin q => FFin (- q)
  end.

Definition float_of_str (s : string) : option pyfloat :=
  let '(neg, r) := read_sign (Py.strip s) in
  f ← read_magnitude r;
  Some (if neg then negate f else f).

Inductive Event : Type :=
  | Executed (sql : string)
  | Committed.

Record t : Type := mk {
  (** the router model's answer *)
  router_out : string;
  (** the retriever's answer *)
  chunks : list DocChunk.t;
  (** the schema summary *)
  schema : string;
  (** the SQL model's answer, by the constraints it is given *)
  nl2sql_out : string → string;
  (** the SQLite engine, by the statement *)
  engine : string → string + Cursor.t Z;
  (** the synthesis model's answer, by the rendered rows *)
  synth_out : string → Prediction.t string;
}.

Definition runtime (s : t) : Runtime :=
  {| PyObj := string;
     py_of_str := λ x, x;
     py_str := λ x, x;
     py_float := float_of_str;
     py_as_str := Some;
     json_serializable := λ _, true;
     SqlVal := Z;
     json_dumps_rows := λ rows, "[" +:+ pretty (length rows) +:+ " rows]";
     World := list Event;
     router_predict := λ _, mret (router_out s);
     nl2sql_predict := λ _ constraints _, mret (nl2sql_out s constraints);
     synthesizer_predict := λ _ _ _ sql_rows _, mret (synth_out s sql_rows);
     rag_retrieve := λ _ k, mret (take k (chunks s));
     get_schema_summary := mret (schema s);
     cursor_execute := λ sql log, (engine s sql, log ++ [Executed sql]);
     conn_commit := λ log, (inr (), log ++ [Committed]) |}.

(** A model that answers [mode], cites nothing, and a database with one
    table [Orders(total)] holding one row. *)
Definition orders_engine (sql : string) : string + Cursor.t Z :=
  if String.eqb sql "SELECT total FROM Orders"
  then inr (Cursor.mk (Some ["total"]) [[42%Z]])
  else if String.eqb sql "WITH t AS (SELECT total FROM Orders) SELECT total FROM t"
  then inr (Cursor.mk (Some ["total"]) [[42%Z]])
  else if String.eqb sql "SELECT total, -total AS total FROM Orders"
  then inr (Cursor.mk (Some ["total"; "total"]) [[42%Z; (-42)%Z]])
  else if String.eqb sql "SELECT total FROM Orders WHERE total < 0"
  then inr (Cursor.mk (Some ["total"]) [])
  else if String.eqb sql "DELETE FROM Orders WHERE total < 0"
  then inr (Cursor.mk None [])
  else inl "no such table: Orderz".

Definition plain_answer (text citations confidence : string) : Prediction.t string :=
  Prediction.mk text citations confidence "derived from the sources".

Definition scenario (mode sql : string) (citations : string) : t :=
  {| router_out := mode;
     chunks := [DocChunk.mk "calendar::chunk0" "calendar"
                  "Summer sale runs through July 2024." (FFin (1 # 2))];
     schema := "Table: Orders";
     nl2sql_out := λ _, sql;
     engine := orders_engine;
     synth_out := λ _, plain_answer "42" citations "0.9" |}.

(** The world before anything was asked of the database. *)
Definition untouched : list Event := [].

(** A model that wraps its SQL in a fence tagged [tag]. *)
Definition fenced (tag body : string) : string :=
  "```" +:+ tag +:+ newline +:+ body +:+ newline +:+ "```".

(** The state in which a failed query reaches the validator: the engine
    raised, so there is an error message and no row. *)
Definition failed_query_state (s : t) : @State.t (runtime s) :=
  {| State.id := "q1";
     State.question := "Total of all orders?";
     State.format_hint := "text";
     State.mode := "sql";
     State.retrieved_chunks := [];
     State.constraints := "No specific constraints";
     State.sql := "SELECT total FROM Orderz";
     State.sql_result :=
       Some {| SQLiteTool.columns := []; SQLiteTool.rows := [];
               SQLiteTool.error := Some "no such table: Orderz" |};
     State.attempts := 1;
     State.final_answer := py_of_str "42";
     State.citations := [];
     State.confidence := FFin (9 # 10);
     State.explanation := py_of_str "derived from the sources";
     State.done := false;
     State.trace := [] |}.

(** Two chunks with the same content from different sources. *)
Definition kpi_chunk (source : string) : DocChunk.t :=
  DocChunk.mk (source +:+ "::chunk0") source
    "Formula: revenue / orders" (FFin (1 # 2)).

(** An agent for the batch driver: it raises on an empty question. *)
Definition picky_agent (s : t) (question_id question format_hint : Batch.json)
    : M (list Event) (@Batch.record (runtime s)) :=
  match question with
  | Batch.JString EmptyString => raise "empty question"
  | _ =>
      mret {| Batch.id := question_id;
              Batch.question := question;
              Batch.final_answer := py_of_str "42";
              Batch.citations := [];
              Batch.confidence := FFin (9 # 10);
              Batch.explanation := py_of_str "derived from the sources";
              Batch.trace := [] |}
  end.

End Script.

(** ** [agent/rag/retrieval.py] *)

Module RAG.

(** [re.split(r'\n\n+', content)]: the text between runs of two or more
    newlines; [in_gap] holds while such a run is being consumed. *)
Definition push_char (c : ascii) (parts : list string) : list string :=
  match parts with
  | [] => [String c EmptyString]
  | p :: ps => String c p :: ps
  end.

Definition is_newline (c : ascii) : bool := Ascii.eqb c "010".

Definition newline_next (s : string) : bool :=
  match s with String c _ => is_newline c | EmptyString => false end.

Fixpoint split_paragraphs_from (in_gap : bool) (s : string) : list string :=
  match s with
  | EmptyString => [EmptyString]
  | String c s' =>
      if is_newline c then
        if in_gap then split_paragraphs_from true s'
        else if newline_next s' then EmptyString :: split_paragraphs_from true s'
        else push_char c (split_paragraphs_from false s')
      else push_char c (split_paragraphs_from false s')
  end.

Definition split_paragraphs (content : string) : list string :=
  split_paragraphs_from false content.

(** [s.replace(old, '')] for a non-empty [old]: occurrences are removed left
    to right without overlap; [skip] characters still belong to the
    occurrence being removed. *)
Fixpoint remove_from (skip : nat) (old s : string) : string :=
  match s with
  | EmptyString => EmptyString
  | String c s' =>
      match skip with
      | S k => remove_from k old s'
      | 0 =>
          if Py.startswith old s then remove_from (String.length old - 1) old s'
          else String c (remove_from 0 old s')
      end
  end.

Definition remove_sub (old s : string) : string :=
  match old with
  | EmptyString => s
  | _ => remove_from 0 old s
  end.

(** The loop of [_split_into_chunks] over the paragraphs. *)
Fixpoint chunks_from (base_name source : string) (chunk_counter : nat)
    (paragraphs : list string) : list DocChunk.t :=
  match paragraphs with
  | [] => []
  | para :: rest =>
      let para := Py.strip para in
      if String.length para <? 20
      then chunks_from base_name source chunk_counter rest
      else DocChunk.mk (base_name +:+ "::chunk" +:+ pretty chunk_counter)
             source para PyFloat.zero
           :: chunks_from base_name source (S chunk_counter) rest
  end.

(** [RAGRetriever._split_into_chunks] *)
Definition _split_into_chunks (content source : string) : list DocChunk.t :=
  chunks_from (remove_sub ".md" source) source 1 (split_paragraphs content).

Definition markdown_files : list string :=
  ["marketing_calendar.md"; "kpi_definitions.md"; "catalog.md";
   "product_policy.md"].

(** The chunk list [_load_documents] builds; [read_file filename] is the
    text of the file of that name under [docs_dir], [None] when it does not
    exist. *)
Definition load_chunks (read_file : string → option string) : list DocChunk.t :=
  markdown_files ≫= λ filename,
    match read_file filename with
    | None => []
    | Some content => _split_into_chunks content filename
    end.

(** [a[-k:]]: the last [k] elements, and the whole list when [k] is 0. *)
Definition last_k {A} (k : nat) (l : list A) : list A :=
  match k with
  | 0 => l
  | _ => drop (length l - k) l
  end.

Section Retriever.

(** What [TfidfVectorizer.fit_transform] leaves behind (the fitted
    vectorizer and the matrix of chunk vectors). *)
Variable Index : Type.
Variable fit_transform : list string → Index.
(** [cosine_similarity(vectorizer.transform([question]), chunk_vectors)[0]] *)
Variable similarities : Index → string → list pyfloat.
(** [np.argsort] *)
Variable argsort : list pyfloat → list nat.

(** The fields of a [RAGRetriever] once [__init__] has run. *)
Record retriever : Type := {
  chunks : list DocChunk.t;
  chunk_vectors : option Index;
}.

(** [RAGRetriever.__init__] with [_load_documents] *)
Definition load (read_file : string → option string) : retriever :=
  let cs := load_chunks read_file in
  {| chunks := cs;
     chunk_vectors :=
       match cs with
       | [] => None
       | _ => Some (fit_transform (DocChunk.content <$> cs))
       end |}.

(** The loop that builds [results]; an index outside the chunk list or the
    similarity row raises. *)
Fixpoint collect (cs : list DocChunk.t) (sims : list pyfloat) (indices : list nat)
    : string + list DocChunk.t :=
  match indices with
  | [] => inr []
  | idx :: rest =>
      match cs !! idx, sims !! idx with
      | Some chunk, Some s =>
          match collect cs sims rest with
          | inr results =>
              inr (DocChunk.mk (DocChunk.id chunk) (DocChunk.source chunk)
                     (DocChunk.content chunk) s :: results)
          | inl e => inl e
          end
      | _, _ => inl "IndexError"
      end
  end.

(** [RAGRetriever.retrieve] *)
Definition retrieve (r : retriever) (question : string) (k : nat)
    : string + list DocChunk.t :=
  match chunks r, chunk_vectors r with
  | [], _ | _, None => inr []
  | cs, Some vectors =>
      let sims := similarities vectors question in
      let top_k_indices := reverse (last_k k (argsort sims)) in
      collect cs sims top_k_indices
  end.

End Retriever.

End RAG.

(** ** Reading a trace *)

(** The value under ["node"] of a trace entry. *)
Definition entry_node (e : TraceEntry) : Node :=
  match e with
  | TrRouter _ _ => router
  | TrRetriever _ _ => retriever
  | TrPlanner _ => planner
  | TrNl2sql _ _ => nl2sql
  | TrExecutor _ _ _ => executor
  | TrSynthesizer _ _ => synthesizer
  | TrValidate _ _ _ => validate_and_repair
  end.

Definition is_generation (e : TraceEntry) : bool :=
  match e with TrNl2sql _ _ => true | _ => false end.

(** Number of nl2sql entries in a trace. *)
Definition generations (tr : list TraceEntry) : nat :=
  length (filter (λ e, is_generation e = true) tr).

(** What relates the nl2sql entries of the trace to [attempts]: they are as
    many, plus the one whose execution is still to come. *)
Definition generation_count {RT : Runtime} (n : Node) (st : State.t) : Prop :=
  generations (State.trace st)
  = State.attempts st + match n with executor => 1 | _ => 0 end.

(** A text that is empty or starts with a character that is not whitespace. *)
Definition starts_clean (s : string) : Prop :=
  match s with
  | EmptyString => True
  | String c _ => Py.isspace c = false
  end.

(** No whitespace character anywhere in a text. *)
Fixpoint no_space (s : string) : bool :=
  match s with
  | EmptyString => true
  | String c s' => negb (Py.isspace c) && no_space s'
  end.

(** No occurrence of a character in a text. *)
Fixpoint lacks (c : ascii) (s : string) : bool :=
  match s with
  | EmptyString => true
  | String d s' => negb (Ascii.eqb c d) && lacks c s'
  end.

(** The first character of a text. *)
Definition first_char (s : string) : option ascii :=
  match s with
  | EmptyString => None
  | String c _ => Some c
  end.

(** A stand-in for the index of the retriever: the texts themselves, a
    similarity that is 1.0 for the texts holding the question and 0.0 for
    the others, and an [argsort] by insertion. *)
Module Toy.

Definition similarities (texts : list string) (question : string) : list pyfloat :=
  (λ t, if Py.contains question t then PyFloat.one else PyFloat.zero) <$> texts.

Fixpoint insert_index (sims : list pyfloat) (i : nat) (sorted : list nat) : list nat :=
  match sorted with
  | [] => [i]
  | j :: rest =>
      if PyFloat.lt (default FNaN (sims !! i)) (default FNaN (sims !! j))
      then i :: j :: rest
      else j :: insert_index sims i rest
  end.

Definition argsort (sims : list pyfloat) : list nat :=
  foldl (λ sorted i, insert_index sims i sorted) [] (seq 0 (length sims)).

Definition docs (filename : string) : option string :=
  if String.eqb filename "kpi_definitions.md"
  then Some ("Formula: revenue divided by the number of orders"
             +:+ newline +:+ newline
             +:+ "Average order value is reported monthly.")
  else if String.eqb filename "catalog.md"
  then Some "The catalog lists every product with its category."
  else None.

End Toy.

(** * Properties *)

(** ** Facts about the string operations *)

Section StringFacts.

Lemma string_length_app (s t : string) :
  String.length (s +:+ t) = String.length s + String.length t.
Proof. induction s as [|c s IH]; simpl; [done|by rewrite IH]. Qed.

Lemma startswith_app (p s : string) : Py.startswith p (p +:+ s) = true.
Proof.
  induction p as [|c p IH]; simpl; [done|].
  by rewrite Ascii.eqb_refl.
Qed.

Lemma drop_app (p s : string) : Py.drop (String.length p) (p +:+ s) = s.
Proof. induction p as [|c p IH]; simpl; [by destruct s|done]. Qed.

Lemma take_app (s p : string) : Py.take (String.length s) (s +:+ p) = s.
Proof. induction s as [|c s IH]; simpl; [by destruct p|by rewrite IH]. Qed.

Lemma endswith_app (s p : string) : Py.endswith p (s +:+ p) = true.
Proof.
  unfold Py.endswith. rewrite string_length_app.
  replace (String.length s + String.length p - String.length p)
    with (String.length s) by lia.
  rewrite drop_app, String.eqb_refl, andb_true_r.
  apply Nat.leb_le. lia.
Qed.

Lemma drop_last_app (s p : string) :
  Py.drop_last (String.length p) (s +:+ p) = s.
Proof.
  unfold Py.drop_last. rewrite string_length_app.
  replace (String.length s + String.length p - String.length p)
    with (String.length s) by lia.
  apply take_app.
Qed.

(** A body that does not open with a fence can only make [body ```] open
    with one when it is made of at most two backticks. *)
Local Arguments Ascii.eqb : simpl never.

(** Case analysis on the comparisons of a literal with unknown characters. *)
Ltac split_chars :=
  repeat (match goal with
          | |- context [Ascii.eqb ?a ?c] =>
              is_var c; destruct (Ascii.eqb_spec a c) as [<-|]
          end; simpl; auto).

Lemma fence_after_body (body : string) :
  Py.startswith "```" body = false →
  Py.startswith "```" (body +:+ "```") = false
  ∨ body = "" ∨ body = "`" ∨ body = "``".
Proof. destruct body as [|c1 [|c2 [|c3 rest]]]; simpl; auto; split_chars. Qed.

Lemma tag_after_body (body : string) :
  Py.startswith "sql" body = false →
  Py.startswith "sql" (body +:+ "```") = false.
Proof. destruct body as [|c1 [|c2 [|c3 rest]]]; simpl; auto; split_chars. Qed.

Lemma tagged_fence_is_fence (s : string) :
  Py.startswith "```" s = false → Py.startswith "```sql" s = false.
Proof.
  destruct s as [|c1 [|c2 [|c3 rest]]]; simpl; auto.
  destruct (Ascii.eqb "`" c1); [|done].
  destruct (Ascii.eqb "`" c2); [|done].
  by destruct (Ascii.eqb "`" c3).
Qed.

Lemma startswith_drop (p s : string) :
  Py.startswith p s = true → s = p +:+ Py.drop (String.length p) s.
Proof.
  revert s. induction p as [|a p IH]; intros s H; [by destruct s|].
  destruct s as [|b s]; [done|]. simpl in H.
  apply andb_true_iff in H as [Hab Hp].
  apply Ascii.eqb_eq in Hab as <-.
  change (String a s = String a (p +:+ Py.drop (String.length p) s)).
  f_equal. by apply IH.
Qed.

Lemma take_drop_string (n : nat) (s : string) : Py.take n s +:+ Py.drop n s = s.
Proof.
  revert s. induction n as [|n IH]; intros s; [by destruct s|].
  destruct s as [|c s]; [done|].
  change (String c (Py.take n s +:+ Py.drop n s) = String c s).
  f_equal. apply IH.
Qed.

Lemma endswith_drop_last (p s : string) :
  Py.endswith p s = true → s = Py.drop_last (String.length p) s +:+ p.
Proof.
  unfold Py.endswith, Py.drop_last. intros H.
  apply andb_true_iff in H as [_ H]. apply String.eqb_eq in H.
  set (n := String.length s - String.length p) in *.
  rewrite <- H. symmetry. apply take_drop_string.
Qed.

Lemma string_app_nil_r (s : string) : s +:+ "" = s.
Proof.
  induction s as [|c s IH]; [done|].
  change (String c (s +:+ "") = String c s). f_equal. apply IH.
Qed.

Lemma join_cons_ne (sep p : string) (ps : list string) :
  p ≠ "" → Py.join sep (p :: ps) ≠ "".
Proof.
  intros Hp. unfold Py.join. destruct p as [|c p]; [done|].
  destruct ps; simpl; discriminate.
Qed.

End StringFacts.

(** ** The clean-up of generated SQL *)

Section CleanSql.
Context {RT : Runtime}.

Lemma clean_sql_tagged (generated body : string) :
  Py.strip generated = "```sql" +:+ body +:+ "```" →
  Py.startswith "```" body = false →
  clean_sql generated = Py.strip body.
Proof.
  intros Hs Hb. unfold clean_sql. rewrite Hs.
  rewrite (startswith_app "```sql"), (drop_app "```sql").
  destruct (fence_after_body body Hb) as [Hn | [ -> | [ -> | -> ] ] ]; [|done..].
  rewrite Hn, endswith_app.
  change 3 with (String.length "```").
  by rewrite drop_last_app.
Qed.

Lemma clean_sql_untagged (generated body : string) :
  Py.strip generated = "```" +:+ body +:+ "```" →
  Py.startswith "sql" body = false →
  clean_sql generated = Py.strip body.
Proof.
  intros Hs Hb. unfold clean_sql. rewrite Hs.
  replace (Py.startswith "```sql" ("```" +:+ body +:+ "```"))
    with (Py.startswith "sql" (body +:+ "```")) by done.
  rewrite (tag_after_body body Hb).
  rewrite (startswith_app "```"), (drop_app "```"), endswith_app.
  change 3 with (String.length "```").
  by rewrite drop_last_app.
Qed.

Lemma clean_sql_unfenced (generated : string) :
  Py.startswith "```" (Py.strip generated) = false →
  Py.endswith "```" (Py.strip generated) = false →
  clean_sql generated = Py.strip (Py.strip generated).
Proof.
  intros Hp He. unfold clean_sql.
  by rewrite (tagged_fence_is_fence _ Hp), Hp, He.
Qed.

(** Every text is taken apart by [clean_sql] as an opener, a body and a
    closer, and the body alone is kept, stripped.  The opener is the
    longest of nothing, a fence, a fence followed by [sql], and that again
    followed by a fence, that the stripped text starts with; the closer is
    a fence when what follows the opener ends with one. *)
Lemma clean_sql_fences (generated : string) :
  ∃ opener body closer,
    Py.strip generated = opener +:+ body +:+ closer
    ∧ clean_sql generated = Py.strip body
    ∧ (opener = "" ∧ Py.startswith "```" (Py.strip generated) = false
       ∨ opener = "```" ∧ Py.startswith "sql" (body +:+ closer) = false
       ∨ opener = "```sql" ∧ Py.startswith "```" (body +:+ closer) = false
       ∨ opener = "```sql```")
    ∧ (closer = "" ∧ Py.endswith "```" body = false ∨ closer = "```").
Proof.
  unfold clean_sql. set (s := Py.strip generated).
  assert (Hclose : ∀ opener rest,
    s = opener +:+ rest →
    (opener = "" ∧ Py.startswith "```" s = false
     ∨ opener = "```" ∧ Py.startswith "sql" rest = false
     ∨ opener = "```sql" ∧ Py.startswith "```" rest = false
     ∨ opener = "```sql```") →
    ∃ opener body closer,
      s = opener +:+ body +:+ closer
      ∧ Py.strip (if Py.endswith "```" rest then Py.drop_last 3 rest else rest)
        = Py.strip body
      ∧ (opener = "" ∧ Py.startswith "```" s = false
         ∨ opener = "```" ∧ Py.startswith "sql" (body +:+ closer) = false
         ∨ opener = "```sql" ∧ Py.startswith "```" (body +:+ closer) = false
         ∨ opener = "```sql```")
      ∧ (closer = "" ∧ Py.endswith "```" body = false ∨ closer = "```")).
  { intros opener rest Hs Hopen.
    destruct (Py.endswith "```" rest) eqn:He.
    - pose proof (endswith_drop_last "```" rest He) as Hr.
      change (String.length "```") with 3 in Hr.
      exists opener, (Py.drop_last 3 rest), "```".
      rewrite <- Hr. split; [done|]. split; [done|]. split; [done|by right].
    - exists opener, rest, "". rewrite string_app_nil_r.
      split; [done|]. split; [done|]. split; [done|by left]. }
  destruct (Py.startswith "```sql" s) eqn:Htag.
  - pose proof (startswith_drop "```sql" s Htag) as Hs.
    change (String.length "```sql") with 6 in Hs.
    destruct (Py.startswith "```" (Py.drop 6 s)) eqn:Hfence.
    + pose proof (startswith_drop "```" _ Hfence) as Hr.
      change (String.length "```") with 3 in Hr.
      apply (Hclose "```sql```" (Py.drop 3 (Py.drop 6 s))); [|by auto].
      rewrite Hs at 1. rewrite Hr at 1. done.
    + apply (Hclose "```sql" (Py.drop 6 s)); [done|by auto].
  - destruct (Py.startswith "```" s) eqn:Hfence.
    + pose proof (startswith_drop "```" s Hfence) as Hs.
      change (String.length "```") with 3 in Hs.
      apply (Hclose "```" (Py.drop 3 s)); [done|].
      right. left. split; [done|]. rewrite Hs in Htag. exact Htag.
    + apply (Hclose "" s); [done|by auto].
Qed.

End CleanSql.

(** ** The graph: what holds along every run *)

Section GraphFacts.
Context {RT : Runtime}.

Lemma executions_app (tr tr' : list TraceEntry) :
  executions (tr ++ tr') = executions tr + executions tr'.
Proof. unfold executions. by rewrite filter_app, length_app. Qed.

Lemma executions_one (e : TraceEntry) :
  executions [e] = if is_execution e then 1 else 0.
Proof. by destruct e. Qed.

Lemma Router_forward_mode (question : string) (w w' : World) (m : string) :
  Router_forward question w = (inr m, w') → m ∈ ["rag"; "sql"; "hybrid"].
Proof.
  unfold Router_forward, mbind, M_bind, mret, M_ret. intros H.
  destruct (router_predict question w) as [[e|raw] w1]; simplify_eq.
  case_bool_decide; [done|]. by repeat constructor.
Qed.

Lemma mode_cases (m : string) :
  m ∈ ["rag"; "sql"; "hybrid"] → m = "rag" ∨ m = "sql" ∨ m = "hybrid".
Proof. rewrite !elem_of_cons, elem_of_nil. tauto. Qed.

(** [execute_sql] hands every exception of its body to the handler. *)
Lemma execute_sql_returns (sql : string) (w : World) :
  ∃ r w', SQLiteTool.execute_sql sql w = (inr r, w').
Proof.
  unfold SQLiteTool.execute_sql, try_except.
  destruct (SQLiteTool.execute_sql_body sql w) as [[e|r] w']; eauto.
Qed.

(** Evaluate the membership tests on a known mode. *)
Ltac decide_modes :=
  repeat match goal with
         | |- context [bool_decide (?x ∈ ?l)] =>
             let b := eval vm_compute in (bool_decide (x ∈ l)) in
             change (bool_decide (x ∈ l)) with b
         end.

(** Open the monadic definition of a node in a hypothesis. *)
Ltac run_node H :=
  unfold step, node_fn, router_node, retriever_node, planner_node,
    nl2sql_node, executor_node, synthesizer_node, validate_and_repair_node,
    NL2SQL_forward, Synthesizer_forward, mbind, M_bind, mret, M_ret in H;
  repeat case_match; simplify_eq.

Ltac use_node_facts :=
  repeat match goal with
         | H : ?n = ?n ∨ _ → _ |- _ => specialize (H (or_introl eq_refl))
         | H : _ ∨ ?n = ?n → _ |- _ => specialize (H (or_intror eq_refl))
         | H : ?x = ?x → _ |- _ => specialize (H eq_refl)
         end;
  destruct_and?.

Ltac close_routed :=
  use_node_facts;
  split; cbn -[Nat.leb bool_decide executions];
  unfold _route_after_router, _route_after_planner, _route_after_validation;
  cbn -[Nat.leb bool_decide executions];
  repeat match goal with
         | H : State.mode _ = _ |- _ => rewrite H
         | H : State.sql_result _ = _ |- _ => rewrite H
         end;
  decide_modes;
  try (rewrite executions_app, executions_one; cbn -[Nat.leb]);
  repeat (case_match; simplify_eq);
  repeat match goal with
         | H : (_ <=? _) = false |- _ => apply Nat.leb_gt in H
         end;
  intros; destruct_and?; destruct_or?; simplify_eq;
  repeat split; try done; try lia.

Section Run.
Variables (question_id question format_hint : string) (w0 : World).

Lemma inv_step n st w n' st' w' :
  inv question_id question format_hint w0 (n, st, w) → n ≠ END →
  step n st w = (inr (n', st'), w') →
  inv question_id question format_hint w0 (n', st', w').
Proof.
  intros [Hs|(m & w1 & Hm & Hr)] Hn Hstep.
  - unfold start_config in Hs. simplify_eq. right.
    unfold step, node_fn, router_node, mbind, M_bind, mret, M_ret in Hstep.
    simpl in Hstep.
    destruct (Router_forward question w0) as [[e|m] w1] eqn:Hm; simplify_eq.
    exists m, w'. split; [done|].
    pose proof (Router_forward_mode _ _ _ _ Hm) as Hv.
    destruct (mode_cases _ Hv) as [ -> | [ -> | -> ] ]; close_routed.
  - destruct Hr as [H1 H2 H3 H4 H5 H6 H7 H8 H9]. simpl in *.
    right. exists m, w1. split; [done|]. simpl.
    destruct (mode_cases _ H2) as [ -> | [ -> | -> ] ];
      destruct n; try done; run_node Hstep; close_routed.
Qed.

Lemma inv_reaches c c' :
  reaches c c' →
  inv question_id question format_hint w0 c →
  inv question_id question format_hint w0 c'.
Proof.
  induction 1 as [|c n st w n' st' w' _ IH Hn Hstep]; [done|].
  intros Hc. by eapply inv_step; [apply IH| |].
Qed.

Lemma inv_run c :
  reaches (start_config question_id question format_hint w0) c →
  inv question_id question format_hint w0 c.
Proof. intros H. apply (inv_reaches _ _ H). by left. Qed.

(** Along a run the attempts counter never exceeds two. *)
Lemma run_attempts_bounded n st w :
  reaches (start_config question_id question format_hint w0) (n, st, w) →
  State.attempts st ≤ 2.
Proof.
  intros H. destruct (inv_run _ H) as [Hs|(m & w1 & _ & Hr)].
  - unfold start_config in Hs. simplify_eq. simpl. lia.
  - apply Hr.
Qed.
End Run.

Lemma reaches_front n st w n' st' w' c :
  n ≠ END → step n st w = (inr (n', st'), w') →
  reaches (n', st', w') c → reaches (n, st, w) c.
Proof.
  intros Hn Hstep H. remember (n', st', w') as c1 eqn:E.
  induction H as [c1|c1 m st1 w1 m' st1' w1' H IH Hm Hs]; subst.
  - eapply reaches_step; [apply reaches_refl|done..].
  - eapply reaches_step; [by apply IH|done..].
Qed.

Lemma steps_reaches k c c' : steps k c = Some c' → reaches c c'.
Proof.
  revert c. induction k as [|k IH]; intros [[n st] w] H; simpl in H.
  - simplify_eq. apply reaches_refl.
  - case_decide; [done|].
    destruct (step n st w) as [[e|[n1 st1]] w1] eqn:Hs; [done|].
    eapply reaches_front; [done..|]. by apply IH.
Qed.

Lemma invoke_step limit n st w n' st' w' :
  n ≠ END → step n st w = (inr (n', st'), w') →
  invoke (S limit) n st w = invoke limit n' st' w'.
Proof. intros Hn Hs. destruct n; try done; cbn [invoke]; by rewrite Hs. Qed.

(** C7. Once [Router.forward] has answered "rag", no configuration of the
    run is at [nl2sql] or [executor] (whichever way it was reached, the
    repair branch included) and [sql] is still the empty string; once it
    has answered "sql", no configuration is at [retriever] and
    [retrieved_chunks] is still empty. *)
Theorem mode_excludes_nodes
    (question_id question format_hint : string) (w0 w1 : World) (m : string)
    (n : Node) (st : State.t) (w : World) :
  Router_forward question w0 = (inr m, w1) →
  reaches (start_config question_id question format_hint w0) (n, st, w) →
  (m = "rag" → n ≠ nl2sql ∧ n ≠ executor ∧ State.sql st = "")
  ∧ (m = "sql" → n ≠ retriever ∧ State.retrieved_chunks st = []).
Proof.
  intros Hm H. destruct (inv_run _ _ _ _ _ H) as [Hs|(m' & w1' & Hm' & Hr)].
  - unfold start_config in Hs. simplify_eq. by split.
  - rewrite Hm in Hm'. simplify_eq. simpl in Hr. split; intros ->.
    + destruct (routed_rag _ _ _ Hr eq_refl) as (?&?&?&?&?). done.
    + by apply (routed_sql _ _ _ Hr).
Qed.

End GraphFacts.


(** Evaluate the left-hand side of an equation between closed terms. *)
Ltac eval_in E :=
  match type of E with
  | ?l = _ => let v := eval vm_compute in l in change l with v in E
  end.

Lemma mode_excludes_nodes_witness :
  match steps (RT := Script.runtime (Script.scenario "rag" "" "")) 6
          (start_config (RT := Script.runtime (Script.scenario "rag" "" ""))
             "q1" "Return policy?" "text" Script.untouched) with
  | Some (n, st, _) => n ≠ nl2sql ∧ n ≠ executor ∧ State.sql st = ""
  | None => False
  end.
Proof.
  destruct (steps 6 _) as [[[n st] w]|] eqn:E; [|eval_in E; discriminate E].
  eapply (mode_excludes_nodes
            (RT := Script.runtime (Script.scenario "rag" "" ""))
            "q1" "Return policy?" "text" Script.untouched Script.untouched "rag").
  - reflexivity.
  - exact (steps_reaches _ _ _ E).
  - reflexivity.
Defined.

(** ** Validation and repair *)

Section Validation.
Context {RT : Runtime}.

Lemma validation_issues_nil (st : State.t) :
  validation_issues st = [] →
  citation_issues st = [] ∧ sql_issues st = [].
Proof.
  unfold validation_issues. intros H.
  apply app_eq_nil in H as [_ H]. apply app_eq_nil in H as [_ H].
  by apply app_eq_nil in H.
Qed.

Lemma step_validate (st : State.t) (w : World) :
  step validate_and_repair st w =
    (inr (_route_after_validation
            (merge st [WDone (bool_decide (validation_issues st = [])
                              || (2 <=? State.attempts st));
                       WTrace [TrValidate (validation_issues st)
                                 (bool_decide (validation_issues st = [])
                                  || (2 <=? State.attempts st))
                                 (State.attempts st)]]),
          merge st [WDone (bool_decide (validation_issues st = [])
                           || (2 <=? State.attempts st));
                    WTrace [TrValidate (validation_issues st)
                              (bool_decide (validation_issues st = [])
                               || (2 <=? State.attempts st))
                              (State.attempts st)]]), w).
Proof. reflexivity. Qed.

(** C6. Leaving [validate_and_repair] with [done] false, the next node is
    [nl2sql] when the last execution carried an error (a non-empty message
    under [sql_result["error"]]) and [synthesizer] otherwise.  In
    particular, when a run is at [validate_and_repair] after exactly one
    execution and that execution carried an error, validation does not
    pass, the next node is [nl2sql], and [attempts] is 1 there. *)
Theorem repair_routing
    (question_id question format_hint : string) (w0 : World) :
  (∀ st w n' st' w',
     step validate_and_repair st w = (inr (n', st'), w') →
     State.done st' = false →
     n' = if result_error (State.sql_result st') is Some _
          then nl2sql else synthesizer)
  ∧ (∀ st w n' st' w',
       reaches (start_config question_id question format_hint w0)
               (validate_and_repair, st, w) →
       executions (State.trace st) = 1 →
       is_Some (result_error (State.sql_result st)) →
       step validate_and_repair st w = (inr (n', st'), w') →
       n' = nl2sql ∧ State.attempts st' = 1 ∧ State.done st' = false).
Proof.
  split.
  - intros st w n' st' w' Hstep Hdone. rewrite step_validate in Hstep.
    simplify_eq. unfold _route_after_validation.
    rewrite Hdone. cbn -[Nat.leb bool_decide] in *.
    apply orb_false_iff in Hdone as [_ ->]. done.
  - intros st w n' st' w' Hreach Hone [e He] Hstep.
    destruct (inv_run _ _ _ _ _ Hreach) as [Hs|(m & w1 & Hm & Hr)];
      [unfold start_config in Hs; simplify_eq|].
    destruct Hr as [H1 H2 H3 H4 H5 H6 _ _ _]. simpl in *.
    rewrite Hone in H3.
    assert (Hmode : bool_decide (State.mode st ∈ ["sql"; "hybrid"]) = true).
    { rewrite H1. destruct (mode_cases _ H2) as [ -> | [ -> | -> ] ]; [|done..].
      destruct (H5 eq_refl) as (_&_&_&Hnone&_). by rewrite Hnone in He. }
    assert (Hissues : bool_decide (validation_issues st = []) = false).
    { apply bool_decide_eq_false. intros Hnil.
      apply validation_issues_nil in Hnil as [_ Hnil].
      unfold sql_issues in Hnil. by rewrite Hmode, He in Hnil. }
    rewrite step_validate in Hstep. simplify_eq.
    unfold _route_after_validation. cbn -[Nat.leb bool_decide].
    by rewrite Hissues, H3, He.
Qed.

End Validation.

Lemma repair_routing_witness :
  match steps (RT := Script.runtime (Script.scenario "sql" "SELECT total FROM Orderz" "")) 5
          (start_config (RT := Script.runtime (Script.scenario "sql" "SELECT total FROM Orderz" ""))
             "q1" "Total of all orders?" "number" Script.untouched),
        steps (RT := Script.runtime (Script.scenario "sql" "SELECT total FROM Orderz" "")) 6
          (start_config (RT := Script.runtime (Script.scenario "sql" "SELECT total FROM Orderz" ""))
             "q1" "Total of all orders?" "number" Script.untouched)
  with
  | Some (n, st, _), Some (n', st', _) =>
      n = validate_and_repair ∧ n' = nl2sql ∧ State.attempts st' = 1
  | _, _ => False
  end.
Proof.
  pose (rt := Script.runtime (Script.scenario "sql" "SELECT total FROM Orderz" "")).
  destruct (steps 5 _) as [[[n st] w]|] eqn:E5; [|eval_in E5; discriminate E5].
  destruct (steps 6 _) as [[[n' st'] w']|] eqn:E6; [|eval_in E6; discriminate E6].
  pose proof (steps_reaches _ _ _ E5) as Hreach.
  eval_in E5. eval_in E6. injection E5 as <- <- <-. injection E6 as <- <- <-.
  split; [reflexivity|].
  destruct (repair_routing (RT := rt) "q1" "Total of all orders?" "number"
              Script.untouched) as [_ H].
  edestruct H as (?&?&?); [exact Hreach|reflexivity|by eexists|reflexivity|].
  split; assumption.
Defined.

(** ** The re-synthesis cycle *)

Section Resynthesis.
Context {RT : Runtime}.

(** The synthesis model always answers, and never with a citation. *)
Hypothesis never_cites :
  ∀ question format_hint docs rows sql w,
    ∃ p w', synthesizer_predict question format_hint docs rows sql w = (inr p, w')
            ∧ parse_citations (Prediction.citations p) = [].

Lemma missing_citations_not_done (st : State.t) :
  State.mode st = "rag" → State.citations st = [] →
  bool_decide (validation_issues st = []) = false.
Proof.
  intros Hm Hc. apply bool_decide_eq_false. intros Hnil.
  apply validation_issues_nil in Hnil as [Hnil _].
  unfold citation_issues in Hnil. by rewrite Hm, Hc in Hnil.
Qed.

(** In mode "rag" without citations, [synthesizer] and
    [validate_and_repair] hand over to each other for ever: [attempts]
    stays 0, so the cap never applies. *)
Lemma uncited_rag_cycle (limit : nat) (n : Node) (st : State.t) (w : World) :
  State.mode st = "rag" → State.attempts st = 0 →
  State.sql_result st = None →
  n = synthesizer ∨ (n = validate_and_repair ∧ State.citations st = []) →
  invoke limit n st w = StepLimit.
Proof.
  revert n st w. induction limit as [|limit IH]; intros n st w Hm Ha Hr Hn.
  - by destruct Hn as [ -> | [ -> _] ].
  - destruct Hn as [ -> | [ -> Hc] ].
    + destruct (never_cites (State.question st) (State.format_hint st)
                  (render_docs (State.retrieved_chunks st))
                  (render_rows (State.sql_result st)) (State.sql st) w)
        as (p & w' & Hp & Hcit).
      erewrite invoke_step; [apply IH| done |]; last first.
      { unfold step, node_fn, synthesizer_node, Synthesizer_forward,
          mbind, M_bind, mret, M_ret. rewrite Hp. reflexivity. }
      all: try done.
      right. split; [done|]. simpl. by rewrite Hcit.
    + erewrite invoke_step; [apply IH| done |]; last first.
      { rewrite step_validate. unfold _route_after_validation.
        cbn -[Nat.leb bool_decide].
        rewrite (missing_citations_not_done st Hm Hc), Ha, Hr. reflexivity. }
      all: try done. by left.
Qed.

End Resynthesis.

(** C1, at the input on which it fails.  The router answers "rag" and the
    synthesis model never cites a passage: whatever the step limit, the
    invocation of the graph does not finish.  The validator reports
    "Missing citations" each time, [attempts] stays 0 because the executor
    is not on the cycle, and the routing sends the run back to the
    synthesizer. *)
Theorem uncited_rag_run_never_finishes (limit : nat) :
  run (RT := Script.runtime (Script.scenario "rag" "" ""))
    limit "q1" "Return policy?" "text" Script.untouched = StepLimit.
Proof.
  unfold run.
  destruct limit as [|[|[|limit]]]; [reflexivity..|].
  do 3 (erewrite invoke_step; [|done|reflexivity]).
  apply uncited_rag_cycle; [|reflexivity..|by left].
  intros. eexists _, _. split; reflexivity.
Qed.

(** ** The validator's SQL check *)

Section SqlCheck.
Context {RT : Runtime}.

Lemma elem_of_validation_issues (st : State.t) (i : string) :
  i ∈ validation_issues st ↔
  i ∈ format_issues st ∨ i ∈ json_issues st
  ∨ i ∈ citation_issues st ∨ i ∈ sql_issues st.
Proof. unfold validation_issues. by rewrite !elem_of_app. Qed.

Lemma not_a_sql_issue (st : State.t) (i : string) :
  i ∈ format_issues st ∨ i ∈ json_issues st ∨ i ∈ citation_issues st →
  i = "Answer should be a number" ∨ i = "Answer is not JSON serializable"
  ∨ i = "Missing citations".
Proof.
  unfold format_issues, json_issues, citation_issues.
  repeat case_match; rewrite ?elem_of_cons, ?elem_of_nil; tauto.
Qed.

Lemma other_issues_are_not_sql (st : State.t) :
  filter (λ i, i = "SQL returned no rows" ∨ Py.startswith "SQL error: " i = true)
    (format_issues st ++ json_issues st ++ citation_issues st) = [].
Proof.
  unfold format_issues, json_issues, citation_issues.
  repeat case_match; reflexivity.
Qed.

Lemma sql_issues_are_sql (st : State.t) :
  filter (λ i, i = "SQL returned no rows" ∨ Py.startswith "SQL error: " i = true)
    (sql_issues st) = sql_issues st.
Proof.
  unfold sql_issues. repeat case_match; reflexivity.
Qed.

(** C2, as the code has it.  In mode "sql" or "hybrid" the validator's
    check of the query result reports one issue at most.  With an error
    it reports the execution error and nothing about rows, even if there
    are none; without an error and without rows it reports the absence of
    rows; without an error and with at least one row it reports neither.
    The last conjunct gives the SQL issues among all reported issues in
    every such state: there is never more than one. *)
Theorem sql_check_reports_one_issue (st : State.t) :
  State.mode st ∈ ["sql"; "hybrid"] →
  (∀ e, result_error (State.sql_result st) = Some e →
        "SQL error: " +:+ e ∈ validation_issues st
        ∧ ("SQL returned no rows" ∉ validation_issues st)
        ∧ ∀ e', "SQL error: " +:+ e' ∈ validation_issues st → e' = e)
  ∧ (result_error (State.sql_result st) = None →
     result_rows (State.sql_result st) = [] →
     "SQL returned no rows" ∈ validation_issues st
     ∧ ∀ e, "SQL error: " +:+ e ∉ validation_issues st)
  ∧ (result_error (State.sql_result st) = None →
     result_rows (State.sql_result st) ≠ [] →
     ("SQL returned no rows" ∉ validation_issues st)
     ∧ ∀ e, "SQL error: " +:+ e ∉ validation_issues st)
  ∧ filter (λ i, i = "SQL returned no rows" ∨ Py.startswith "SQL error: " i = true)
      (validation_issues st)
    = match result_error (State.sql_result st),
            result_rows (State.sql_result st) with
      | Some e, _ => ["SQL error: " +:+ e]
      | None, [] => ["SQL returned no rows"]
      | None, _ :: _ => []
      end
  ∧ length (filter (λ i, i = "SQL returned no rows"
                         ∨ Py.startswith "SQL error: " i = true)
              (validation_issues st)) ≤ 1.
Proof.
  intros Hin. pose proof (bool_decide_eq_true_2 _ Hin) as Hm.
  set (P := λ i : string,
         i = "SQL returned no rows" ∨ Py.startswith "SQL error: " i = true).
  assert (Hfilter : filter P (validation_issues st)
                    = match result_error (State.sql_result st),
                            result_rows (State.sql_result st) with
                      | Some e, _ => ["SQL error: " +:+ e]
                      | None, [] => ["SQL returned no rows"]
                      | None, _ :: _ => []
                      end).
  { unfold validation_issues.
    rewrite !(assoc_L (++)), filter_app, <- !(assoc_L (++)).
    unfold P. rewrite other_issues_are_not_sql, sql_issues_are_sql.
    unfold sql_issues. rewrite Hm. simpl.
    destruct (result_error (State.sql_result st)); [done|].
    by destruct (result_rows (State.sql_result st)). }
  assert (Herr : ∀ e, "SQL error: " +:+ e ∈ validation_issues st
                      ↔ "SQL error: " +:+ e ∈ filter P (validation_issues st)).
  { intros e. rewrite list_elem_of_filter. split; [|tauto].
    intros H. split; [|done]. right. apply startswith_app. }
  assert (Hrows : "SQL returned no rows" ∈ validation_issues st
                  ↔ "SQL returned no rows" ∈ filter P (validation_issues st)).
  { rewrite list_elem_of_filter. split; [|tauto].
    intros H. split; [by left|done]. }
  split; [|split; [|split; [|split]]].
  - intros e He. rewrite Hrows, Herr, Hfilter, He.
    rewrite !list_elem_of_singleton. split; [done|]. split; [done|].
    intros e'. rewrite Herr, Hfilter, He, list_elem_of_singleton.
    intros H. change (String.append "SQL error: " e'
                      = String.append "SQL error: " e) in H.
    simpl in H. by simplify_eq.
  - intros He Hr. rewrite Hrows, Hfilter, He, Hr.
    split; [by apply list_elem_of_singleton|].
    intros e. rewrite Herr, Hfilter, He, Hr. by rewrite list_elem_of_singleton.
  - intros He Hr. rewrite Hrows, Hfilter, He.
    destruct (result_rows (State.sql_result st)); [done|].
    split; [apply not_elem_of_nil|].
    intros e. rewrite Herr, Hfilter, He. apply not_elem_of_nil.
  - exact Hfilter.
  - fold P. rewrite Hfilter.
    destruct (result_error (State.sql_result st)); [simpl; lia|].
    destruct (result_rows (State.sql_result st)); simpl; lia.
Qed.

End SqlCheck.

Lemma sql_check_reports_one_issue_witness :
  "SQL error: no such table: Orderz"
    ∈ validation_issues (Script.failed_query_state (Script.scenario "sql" "" ""))
  ∧ "SQL returned no rows"
    ∉ validation_issues (Script.failed_query_state (Script.scenario "sql" "" "")).
Proof.
  destruct (proj1 (sql_check_reports_one_issue
                     (Script.failed_query_state (Script.scenario "sql" "" ""))
                     ltac:(change ("sql" ∈ ["sql"; "hybrid"]); constructor))
              "no such table: Orderz" eq_refl) as (Herr & Hrows & _).
  split; [exact Herr|exact Hrows].
Defined.

(** C2 as stated fails: the failed query left an error and no rows, and the
    validator reports the error alone. *)
Lemma error_and_no_rows_give_one_issue :
  let st := Script.failed_query_state (Script.scenario "sql" "" "") in
  State.mode st = "sql"
  ∧ (State.sql_result st ≫= SQLiteTool.error) = Some "no such table: Orderz"
  ∧ result_rows (State.sql_result st) = []
  ∧ validation_issues st = ["SQL error: no such table: Orderz"].
Proof. split; [|split; [|split]]; reflexivity. Qed.

(** ** [execute_sql] *)

Section ExecuteSql.
Context {RT : Runtime}.

Lemma fill_row_length (cols : list string) (idx : nat) (row : list SqlVal)
    (d : gmap string SqlVal) :
  idx + length cols ≤ length row →
  ∃ d', SQLiteTool.fill_row cols idx row d = inr d'.
Proof.
  revert idx d. induction cols as [|col cols IH]; intros idx d Hlen; simpl in *.
  - eauto.
  - destruct (lookup_lt_is_Some_2 row idx) as [v Hv]; [lia|].
    rewrite Hv. apply IH. lia.
Qed.

Lemma fill_row_lookup (cols : list string) (idx : nat) (row : list SqlVal)
    (d d' : gmap string SqlVal) :
  NoDup cols →
  SQLiteTool.fill_row cols idx row d = inr d' →
  (∀ j col, cols !! j = Some col → d' !! col = row !! (idx + j))
  ∧ (∀ k, k ∉ cols → d' !! k = d !! k).
Proof.
  revert idx d. induction cols as [|col cols IH]; intros idx d Hnd Hfill;
    simpl in Hfill.
  - simplify_eq. split; [by intros []|done].
  - apply NoDup_cons in Hnd as [Hcol Hnd].
    destruct (row !! idx) as [v|] eqn:Hv; [|done].
    destruct (IH _ _ Hnd Hfill) as [Hin Hout]. split.
    + intros [|j] c Hc; simpl in Hc.
      * simplify_eq. rewrite Hout by done.
        by rewrite lookup_insert_eq, Nat.add_0_r.
      * rewrite (Hin j c Hc). f_equal. lia.
    + intros k Hk. apply not_elem_of_cons in Hk as [Hne Hk].
      rewrite Hout by done. by rewrite lookup_insert_ne.
Qed.

Lemma fill_row_outside (cols : list string) (idx : nat) (row : list SqlVal)
    (d d' : gmap string SqlVal) (k : string) :
  SQLiteTool.fill_row cols idx row d = inr d' →
  k ∉ cols → d' !! k = d !! k.
Proof.
  revert idx d. induction cols as [|col cols IH]; intros idx d H Hk; simpl in H.
  - by simplify_eq.
  - apply not_elem_of_cons in Hk as [Hne Hk].
    destruct (row !! idx) as [v|]; [|done].
    rewrite (IH _ _ H Hk). by rewrite lookup_insert_ne.
Qed.

(** A later assignment to the same key overwrites the earlier one. *)
Lemma fill_row_last (cols : list string) (idx : nat) (row : list SqlVal)
    (d d' : gmap string SqlVal) (j : nat) (col : string) :
  SQLiteTool.fill_row cols idx row d = inr d' →
  cols !! j = Some col →
  (∀ j', j < j' → cols !! j' ≠ Some col) →
  d' !! col = row !! (idx + j).
Proof.
  revert idx d j. induction cols as [|c cols IH]; intros idx d j H Hj Hlast;
    simpl in H; [done|].
  destruct (row !! idx) as [v|] eqn:Hv; [|done].
  destruct j as [|j]; simpl in Hj.
  - simplify_eq. rewrite (fill_row_outside _ _ _ _ _ col H).
    + by rewrite lookup_insert_eq, Nat.add_0_r.
    + intros Hin. apply list_elem_of_lookup in Hin as [j' Hj'].
      apply (Hlast (S j')); [lia|done].
  - rewrite (IH _ _ j H Hj); [f_equal; lia|].
    intros j' Hlt. apply (Hlast (S j')). lia.
Qed.

(** Rows at least as wide as the column list all become dictionaries.  Each
    dictionary has the column names as its keys and maps a name to the
    value of the last column of that name, so with distinct names it maps
    the [j]-th column to the [j]-th value of its row. *)
Lemma fetch_rows_wide (cols : list string) (fetched : list (list SqlVal)) :
  Forall (λ row, length cols ≤ length row) fetched →
  ∃ rs, SQLiteTool.fetch_rows cols fetched = inr rs
        ∧ length rs = length fetched
        ∧ ∀ i row d,
            fetched !! i = Some row → rs !! i = Some d →
            (∀ j col, cols !! j = Some col →
                      (∀ j', j < j' → cols !! j' ≠ Some col) →
                      d !! col = row !! j)
            ∧ (∀ k, k ∉ cols → d !! k = None)
            ∧ (NoDup cols → ∀ j col, cols !! j = Some col → d !! col = row !! j).
Proof.
  induction 1 as [|row fetched Hrow _ (rs & IH & Hlen & Hrows)]; simpl.
  - exists []. split; [done|]. split; [done|]. by intros [].
  - destruct (fill_row_length cols 0 row ∅) as [d Hd]; [simpl; lia|].
    rewrite Hd, IH. exists (d :: rs). split; [done|]. split.
    + simpl. by rewrite Hlen.
    + intros [|i] row' d' Hrow' Hd'; simpl in *; [|by eapply Hrows].
      simplify_eq. split; [|split].
      * intros j col Hj Hlast.
        by apply (fill_row_last _ _ _ _ _ _ _ Hd Hj Hlast).
      * intros k Hk. by rewrite (fill_row_outside _ _ _ _ _ k Hd Hk).
      * intros Hnd j col Hj.
        by apply (proj1 (fill_row_lookup _ _ _ _ _ Hnd Hd) j col Hj).
Qed.


End ExecuteSql.



(** ** The planner *)

Section Planner.

Lemma chunk_constraints_nil (chunk : DocChunk.t) :
  chunk_constraints chunk = [] ↔ no_hint chunk.
Proof.
  unfold chunk_constraints, no_hint.
  destruct (DateRe.findall _); destruct (Py.contains "Formula:" _);
    destruct (Py.contains "SELECT" _); simpl; intuition discriminate.
Qed.

Lemma chunk_constraints_ne (chunk : DocChunk.t) (p : string) :
  p ∈ chunk_constraints chunk → p ≠ "".
Proof.
  unfold chunk_constraints. rewrite elem_of_app.
  intros [H|H]; repeat case_match;
    rewrite ?list_elem_of_singleton, ?elem_of_nil in H; by subst.
Qed.

Lemma constraint_parts_nil (chunks : list DocChunk.t) :
  chunks ≫= chunk_constraints = [] ↔ Forall no_hint chunks.
Proof.
  induction chunks as [|c chunks IH].
  - by split.
  - rewrite bind_cons, Forall_cons, <- IH, <- chunk_constraints_nil.
    split; [apply app_eq_nil|]. by intros [-> ->].
Qed.

Lemma constraint_parts_ext (chunks chunks' : list DocChunk.t) :
  (λ c, (DocChunk.content c, DocChunk.source c)) <$> chunks
  = (λ c, (DocChunk.content c, DocChunk.source c)) <$> chunks' →
  chunks ≫= chunk_constraints = chunks' ≫= chunk_constraints.
Proof.
  revert chunks'. induction chunks as [|c chunks IH]; intros [|c' chunks'] H;
    simpl in H; simplify_eq; [done|].
  rewrite !bind_cons. f_equal; [|by apply IH].
  unfold chunk_constraints.
  by repeat match goal with H : _ = _ |- _ => rewrite H end.
Qed.

(** C5, as the code has it.  The constraints are a function of the
    content and the source of the retrieved chunks and of nothing else;
    when no chunk holds a hint they are the literal
    "No specific constraints", otherwise the fragments joined by "; ";
    they are never empty; and [planner_node] stores exactly them. *)
Theorem planner_constraints_spec {RT : Runtime} (chunks : list DocChunk.t) :
  (Forall no_hint chunks → planner_constraints chunks = "No specific constraints")
  ∧ (¬ Forall no_hint chunks →
     planner_constraints chunks = Py.join "; " (chunks ≫= chunk_constraints))
  ∧ planner_constraints chunks ≠ ""
  ∧ (∀ chunks',
       (λ c, (DocChunk.content c, DocChunk.source c)) <$> chunks
       = (λ c, (DocChunk.content c, DocChunk.source c)) <$> chunks' →
       planner_constraints chunks = planner_constraints chunks')
  ∧ (∀ st w,
       State.retrieved_chunks st = chunks →
       ∃ ws, planner_node st w = (inr ws, w)
             ∧ State.constraints (merge st ws) = planner_constraints chunks).
Proof.
  unfold planner_constraints. repeat split.
  - intros H. apply constraint_parts_nil in H. by rewrite H.
  - intros H. rewrite <- constraint_parts_nil in H.
    by destruct (chunks ≫= chunk_constraints).
  - destruct (chunks ≫= chunk_constraints) as [|p ps] eqn:E; [done|].
    apply join_cons_ne.
    assert (Hp : p ∈ chunks ≫= chunk_constraints) by (rewrite E; left).
    apply list_elem_of_bind in Hp as (c & Hp & _).
    by eapply chunk_constraints_ne.
  - intros chunks' H. by rewrite (constraint_parts_ext _ _ H).
  - intros st w <-. eexists. split; reflexivity.
Qed.

End Planner.

Lemma planner_constraints_spec_witness :
  planner_constraints
    [DocChunk.mk "policy::chunk3" "policy" "Returns are accepted within 30 days."
       (FFin (1 # 4))]
  = "No specific constraints".
Proof.
  apply (proj1 (planner_constraints_spec
                  (RT := Script.runtime (Script.scenario "rag" "" "")) _)).
  repeat constructor.
Defined.

(** C5 as stated fails twice over: the fallback is capitalised, and two
    chunk lists with the same content give different constraints when the
    sources differ. *)
Lemma planner_fallback_and_source :
  (Forall no_hint [] ∧ planner_constraints [] ≠ "no specific constraints")
  ∧ (DocChunk.content (Script.kpi_chunk "kpi_definitions")
     = DocChunk.content (Script.kpi_chunk "catalog")
     ∧ planner_constraints [Script.kpi_chunk "kpi_definitions"]
       ≠ planner_constraints [Script.kpi_chunk "catalog"]).
Proof. split; split; [constructor|discriminate|reflexivity|discriminate]. Qed.

(** ** Query generation *)

Section Generation.
Context {RT : Runtime}.

(** What a returning [nl2sql_node] did: it read the schema, called the
    model once and wrote the cleaned text under [sql]. *)
Lemma nl2sql_node_returns (st : State.t) (w w' : World) (ws : list Write) :
  nl2sql_node st w = (inr ws, w') →
  ∃ schema w1 raw,
    get_schema_summary w = (inr schema, w1)
    ∧ nl2sql_predict (State.question st) (nl2sql_constraints st) schema w1
      = (inr raw, w')
    ∧ ws = [WSql (clean_sql (Py.strip raw));
            WTrace [TrNl2sql (clean_sql (Py.strip raw)) (State.attempts st + 1)]].
Proof.
  unfold nl2sql_node, NL2SQL_forward, mbind, M_bind, mret, M_ret. intros H.
  destruct (get_schema_summary w) as [[e|schema] w1] eqn:Hs; [done|].
  destruct (nl2sql_predict _ _ schema w1) as [[e|raw] w2] eqn:Hp; simplify_eq.
  by exists schema, w1, raw.
Qed.

(** C4, as the code has it.  [nl2sql_node] stores [clean_sql] of what
    [NL2SQL.forward] returned.  The text is split as opener, body and
    closer and the stripped body is stored.  The opener is a fence, or a
    fence with the letters [sql] whatever follows them, or that followed
    by a second fence, or nothing when the text does not start with a
    fence; the closer is a fence when what follows the opener ends with
    one, and nothing otherwise.  Each fence is removed whether or not the
    other is there.  No tag other than [sql] is looked for: after a bare
    fence the body starts with what followed the backticks. *)
Theorem generated_sql_is_unfenced (st : State.t) (w w' : World) (ws : list Write) :
  nl2sql_node st w = (inr ws, w') →
  ∃ schema w1 generated,
    get_schema_summary w = (inr schema, w1)
    ∧ NL2SQL_forward (State.question st) (nl2sql_constraints st) schema w1
      = (inr generated, w')
    ∧ State.sql (merge st ws) = clean_sql generated
    ∧ (∃ opener body closer,
         Py.strip generated = opener +:+ body +:+ closer
         ∧ State.sql (merge st ws) = Py.strip body
         ∧ (opener = "" ∧ Py.startswith "```" (Py.strip generated) = false
            ∨ opener = "```" ∧ Py.startswith "sql" (body +:+ closer) = false
            ∨ opener = "```sql" ∧ Py.startswith "```" (body +:+ closer) = false
            ∨ opener = "```sql```")
         ∧ (closer = "" ∧ Py.endswith "```" body = false ∨ closer = "```"))
    ∧ (∀ body, Py.strip generated = "```sql" +:+ body +:+ "```" →
               Py.startswith "```" body = false →
               clean_sql generated = Py.strip body)
    ∧ (∀ body, Py.strip generated = "```" +:+ body +:+ "```" →
               Py.startswith "sql" body = false →
               clean_sql generated = Py.strip body)
    ∧ (Py.startswith "```" (Py.strip generated) = false →
       Py.endswith "```" (Py.strip generated) = false →
       clean_sql generated = Py.strip (Py.strip generated)).
Proof.
  intros H. destruct (nl2sql_node_returns _ _ _ _ H) as (schema & w1 & raw & Hs & Hp & ->).
  exists schema, w1, (Py.strip raw). split; [done|]. split.
  { unfold NL2SQL_forward, mbind, M_bind, mret, M_ret. by rewrite Hp. }
  split; [done|].
  split; [apply clean_sql_fences|].
  split; [apply clean_sql_tagged|].
  split; [apply clean_sql_untagged|apply clean_sql_unfenced].
Qed.

(** C8. Entering [nl2sql_node] with [attempts > 0] after an execution that
    left an error message, the model is called with the stored constraints
    followed by that message and the instruction to fix the SQL, and the
    node leaves the stored constraints as they were.  No node other than
    the planner changes [constraints], and the planner is entered from
    the router or the retriever only, never on the repair branch. *)
Theorem repair_keeps_stored_constraints :
  (∀ st w ws w' r e,
     nl2sql_node st w = (inr ws, w') →
     0 < State.attempts st →
     State.sql_result st = Some r → SQLiteTool.error r = Some e →
     ∃ schema w1 raw,
       get_schema_summary w = (inr schema, w1)
       ∧ nl2sql_predict (State.question st)
           (State.constraints st +:+ " Previous SQL failed with: " +:+ e
              +:+ ". Please fix the SQL.")
           schema w1 = (inr raw, w')
       ∧ State.constraints (merge st ws) = State.constraints st)
  ∧ (∀ n st w n' st' w',
       step n st w = (inr (n', st'), w') → n ≠ planner →
       State.constraints st' = State.constraints st)
  ∧ (∀ n st w n' st' w',
       step n st w = (inr (n', st'), w') → n' = planner →
       n = router ∨ n = retriever).
Proof.
  split; [|split].
  - intros st w ws w' r e H Ha Hr He.
    destruct (nl2sql_node_returns _ _ _ _ H) as (schema & w1 & raw & Hs & Hp & ->).
    exists schema, w1, raw. split; [done|]. split; [|done].
    revert Hp. unfold nl2sql_constraints, prev_error.
    apply Nat.ltb_lt in Ha. rewrite Ha, Hr, He. done.
  - intros n st w n' st' w' H Hn.
    destruct n; try done;
      unfold step, node_fn, router_node, retriever_node, nl2sql_node,
        executor_node, synthesizer_node, validate_and_repair_node,
        NL2SQL_forward, Synthesizer_forward, mbind, M_bind, mret, M_ret in H;
      repeat case_match; by simplify_eq.
  - intros n st w n' st' w' H ->.
    destruct n; auto;
      unfold step, node_fn, planner_node, nl2sql_node,
        executor_node, synthesizer_node, validate_and_repair_node,
        NL2SQL_forward, Synthesizer_forward, mbind, M_bind, mret, M_ret in H;
      repeat case_match; simplify_eq;
      unfold next_node, _route_after_planner, _route_after_validation in *;
      repeat case_match; done.
Qed.

End Generation.

Lemma generated_sql_is_unfenced_witness :
  ∃ ws w',
    nl2sql_node
      (RT := Script.runtime
               (Script.scenario "sql" (Script.fenced "sql" "SELECT total FROM Orders") ""))
      (initial_state "q1" "Total of all orders?" "number") Script.untouched
    = (inr ws, w')
    ∧ State.sql (merge (initial_state "q1" "Total of all orders?" "number") ws)
      = "SELECT total FROM Orders".
Proof.
  set (rt := Script.runtime
               (Script.scenario "sql" (Script.fenced "sql" "SELECT total FROM Orders") "")).
  destruct (nl2sql_node (RT := rt)
              (initial_state "q1" "Total of all orders?" "number") Script.untouched)
    as [[e|ws] w'] eqn:Hn; [eval_in Hn; discriminate Hn|].
  exists ws, w'. split; [reflexivity|].
  destruct (generated_sql_is_unfenced (RT := rt) _ _ _ _ Hn)
    as (schema & w1 & generated & _ & Hg & Hsql & _ & Htag & _).
  eval_in Hg. injection Hg as <- _.
  rewrite Hsql.
  by rewrite (Htag (newline +:+ "SELECT total FROM Orders" +:+ newline)).
Defined.

(** C4 as stated fails: a fence tagged [SQL] loses its backticks, and the
    tag stays in the stored query. *)
Lemma other_fence_tag_is_kept :
  ∃ ws w',
    nl2sql_node
      (RT := Script.runtime
               (Script.scenario "sql" (Script.fenced "SQL" "SELECT total FROM Orders") ""))
      (initial_state "q1" "Total of all orders?" "number") Script.untouched
    = (inr ws, w')
    ∧ State.sql (merge (initial_state "q1" "Total of all orders?" "number") ws)
      = "SQL" +:+ newline +:+ "SELECT total FROM Orders"
    ∧ State.sql (merge (initial_state "q1" "Total of all orders?" "number") ws)
      ≠ "SELECT total FROM Orders".
Proof. eexists _, _. split; [reflexivity|]. split; [reflexivity|discriminate]. Qed.

(** The tag is tested as a prefix, so a fence tagged [sqlite] loses the
    letters [sql] only; and a fence is removed at either end when the other
    end has none. *)
Lemma fences_by_example :
  clean_sql (Script.fenced "sqlite" "SELECT 1") = "ite" +:+ newline +:+ "SELECT 1"
  ∧ clean_sql ("```sql" +:+ newline +:+ "SELECT 1") = "SELECT 1"
  ∧ clean_sql ("SELECT 1" +:+ newline +:+ "```") = "SELECT 1".
Proof. split; [|split]; reflexivity. Qed.

Lemma repair_keeps_stored_constraints_witness :
  ∃ ws w' raw,
    nl2sql_node (RT := Script.runtime (Script.scenario "sql" "SELECT total FROM Orders" ""))
      (Script.failed_query_state (Script.scenario "sql" "SELECT total FROM Orders" ""))
      Script.untouched = (inr ws, w')
    ∧ @nl2sql_predict (Script.runtime (Script.scenario "sql" "SELECT total FROM Orders" ""))
        "Total of all orders?"
        "No specific constraints Previous SQL failed with: no such table: Orderz. Please fix the SQL."
        "Table: Orders" Script.untouched = (inr raw, w')
    ∧ State.constraints
        (merge (Script.failed_query_state (Script.scenario "sql" "SELECT total FROM Orders" "")) ws)
      = "No specific constraints".
Proof.
  set (rt := Script.runtime (Script.scenario "sql" "SELECT total FROM Orders" "")).
  destruct (nl2sql_node (RT := rt)
              (Script.failed_query_state (Script.scenario "sql" "SELECT total FROM Orders" ""))
              Script.untouched)
    as [[e|ws] w'] eqn:Hn; [eval_in Hn; discriminate Hn|].
  destruct (proj1 (repair_keeps_stored_constraints (RT := rt)) _ _ _ _
              {| SQLiteTool.columns := []; SQLiteTool.rows := [];
                 SQLiteTool.error := Some "no such table: Orderz" |}
              "no such table: Orderz" Hn)
    as (schema & w1 & raw & Hs & Hp & Hc); [simpl; lia|reflexivity..|].
  exists ws, w', raw. split; [reflexivity|].
  eval_in Hs. injection Hs as <- <-.
  split; [exact Hp|exact Hc].
Defined.

(** ** Confidence *)

Section Confidence.
Context {RT : Runtime}.

Lemma clamp_in_unit_interval (f : pyfloat) :
  PyFloat.in_unit_interval (PyFloat.max PyFloat.zero (PyFloat.min PyFloat.one f)).
Proof.
  unfold PyFloat.max, PyFloat.min, PyFloat.zero, PyFloat.one.
  destruct f as [| |q|]; simpl; try (split; discriminate).
  destruct (Qle_bool 1 q) eqn:E1; simpl; [split; discriminate|].
  destruct (Qle_bool q 0) eqn:E0; simpl; [split; discriminate|].
  split.
  - apply Qlt_le_weak, Qnot_le_lt. intros H.
    apply Qle_bool_iff in H. congruence.
  - apply Qlt_le_weak, Qnot_le_lt. intros H.
    apply Qle_bool_iff in H. congruence.
Qed.

Lemma clamp_above (f : pyfloat) :
  PyFloat.lt PyFloat.one f = true →
  PyFloat.max PyFloat.zero (PyFloat.min PyFloat.one f) = PyFloat.one.
Proof.
  unfold PyFloat.max, PyFloat.min, PyFloat.zero, PyFloat.one.
  destruct f as [| |q|]; simpl; try done.
  intros H. apply negb_true_iff in H.
  assert (Hq : Qle_bool 1 q = true).
  { apply Qle_bool_iff, Qlt_le_weak, Qnot_le_lt. intros Hle.
    apply Qle_bool_iff in Hle. congruence. }
  by rewrite Hq.
Qed.

Lemma clamp_below (f : pyfloat) :
  PyFloat.lt f PyFloat.zero = true →
  PyFloat.max PyFloat.zero (PyFloat.min PyFloat.one f) = PyFloat.zero.
Proof.
  unfold PyFloat.max, PyFloat.min, PyFloat.zero, PyFloat.one.
  destruct f as [| |q|]; simpl; try done.
  intros H. apply negb_true_iff in H.
  assert (Hlt : (q < 0)%Q).
  { apply Qnot_le_lt. intros Hle. apply Qle_bool_iff in Hle. congruence. }
  assert (H1 : Qle_bool 1 q = false).
  { destruct (Qle_bool 1 q) eqn:E; [|done]. apply Qle_bool_iff in E.
    exfalso. apply (Qlt_irrefl 0). apply Qlt_le_trans with 1%Q; [done|].
    apply Qle_trans with q; [done|]. by apply Qlt_le_weak. }
  rewrite H1. simpl.
  assert (H0 : Qle_bool q 0 = true) by (by apply Qle_bool_iff, Qlt_le_weak).
  by rewrite H0.
Qed.

Lemma synthesizer_node_returns (st : State.t) (w w' : World) (ws : list Write) :
  synthesizer_node st w = (inr ws, w') →
  ∃ p,
    synthesizer_predict (State.question st) (State.format_hint st)
      (render_docs (State.retrieved_chunks st))
      (render_rows (State.sql_result st)) (State.sql st) w = (inr p, w')
    ∧ State.confidence (merge st ws) = parse_confidence (Prediction.confidence p)
    ∧ State.citations (merge st ws) = parse_citations (Prediction.citations p).
Proof.
  unfold synthesizer_node, Synthesizer_forward, mbind, M_bind, mret, M_ret.
  intros H.
  destruct (synthesizer_predict _ _ _ _ _ w) as [[e|p] w1] eqn:Hp; simplify_eq.
  by exists p.
Qed.


End Confidence.


(** ** The batch driver *)

Section BatchDriver.
Context {RT : Runtime}.
Variable agent_run : Batch.json → Batch.json → Batch.json → M World Batch.record.

Lemma process_item_textual (idx : nat) (item : gmap string Batch.json) (w : World) :
  Batch.textual item →
  ∃ r w', Batch.process_item agent_run idx item w = (inr r, w').
Proof.
  intros Ht. unfold Batch.process_item, try_except, lift, mbind, M_bind, mret, M_ret.
  assert (Hp : Batch.preview (default (Batch.JString "") (item !! "question"))
               = inr ()) by (by destruct Ht as [->|[s ->]]).
  rewrite Hp.
  destruct (agent_run _ _ _ w) as [[e|r] w']; eauto.
Qed.

Lemma process_from_textual (idx : nat) (questions : list (gmap string Batch.json))
    (w : World) :
  Forall Batch.textual questions →
  ∃ rs w', Batch.process_from agent_run idx questions w = (inr rs, w')
           ∧ length rs = length questions.
Proof.
  intros H. revert idx w.
  induction H as [|item questions Ht _ IH]; intros idx w; simpl.
  - by exists [], w.
  - unfold mbind, M_bind, mret, M_ret.
    destruct (process_item_textual idx item w Ht) as (r & w1 & ->).
    destruct (IH (S idx) w1) as (rs & w2 & -> & Hlen).
    exists (r :: rs), w2. simpl. by rewrite Hlen.
Qed.

Lemma process_item_returns (idx : nat) (item : gmap string Batch.json)
    (w w' : World) (r : Batch.record) :
  Batch.process_item agent_run idx item w = (inr r, w') →
  match agent_run (default (Batch.JString ("q" +:+ pretty idx)) (item !! "id"))
          (default (Batch.JString "") (item !! "question"))
          (default (Batch.JString "text") (item !! "format_hint")) w with
  | (inr result, w1) => r = result ∧ w' = w1
  | (inl e, w1) =>
      r = Batch.error_record
            (default (Batch.JString ("q" +:+ pretty idx)) (item !! "id"))
            (default (Batch.JString "") (item !! "question")) e
      ∧ w' = w1
  end.
Proof.
  unfold Batch.process_item, try_except, lift, mbind, M_bind, mret, M_ret.
  destruct (Batch.preview _) as [e|[]]; [done|].
  destruct (agent_run _ _ _ w) as [[e|res] w1]; intros H; by simplify_eq.
Qed.

(** The [i]-th record of a finished loop is the one the [i]-th iteration
    appends, run in the world the iterations before it left. *)
Lemma process_from_prefix (questions : list (gmap string Batch.json))
    (idx : nat) (w w' : World) (rs : list Batch.record) :
  Batch.process_from agent_run idx questions w = (inr rs, w') →
  length rs = length questions
  ∧ ∀ i item,
      questions !! i = Some item →
      ∃ wi r wi',
        Batch.process_from agent_run idx (take i questions) w
        = (inr (take i rs), wi)
        ∧ Batch.process_item agent_run (idx + i) item wi = (inr r, wi')
        ∧ rs !! i = Some r.
Proof.
  revert idx w w' rs.
  induction questions as [|item questions IH]; intros idx w w' rs H; simpl in H.
  - unfold mret, M_ret in H. by simplify_eq.
  - unfold mbind, M_bind, mret, M_ret in H.
    destruct (Batch.process_item agent_run idx item w) as [[e|r] w1] eqn:Hitem;
      [done|].
    destruct (Batch.process_from agent_run (S idx) questions w1)
      as [[e|rs'] w2] eqn:Hrest; [done|].
    simplify_eq. destruct (IH _ _ _ _ Hrest) as [Hlen Hrs].
    split; [simpl; by rewrite Hlen|].
    intros [|i] item' Hi; simpl in Hi.
    + simplify_eq. exists w, r, w1. rewrite Nat.add_0_r. by repeat split.
    + destruct (Hrs i item' Hi) as (wi & r' & wi' & Hpre & Hr' & Hl).
      exists wi, r', wi'. split; [|split; [|done]].
      * simpl. unfold mbind, M_bind, mret, M_ret. by rewrite Hitem, Hpre.
      * by replace (idx + S i) with (S idx + i) by lia.
Qed.

Lemma process_from_aborts (before after : list (gmap string Batch.json))
    (item : gmap string Batch.json) (q : Batch.json) (e : string)
    (idx : nat) (w : World) :
  Forall Batch.textual before →
  item !! "question" = Some q → Batch.preview q = inl e →
  ∃ w', Batch.process_from agent_run idx (before ++ item :: after) w = (inl e, w').
Proof.
  intros Hb Hq Hp. revert idx w.
  induction Hb as [|b before Hb _ IH]; intros idx w; simpl.
  - unfold mbind, M_bind, Batch.process_item, lift. rewrite Hq. simpl.
    rewrite Hp. eauto.
  - unfold mbind, M_bind.
    destruct (process_item_textual idx b w Hb) as (r & w1 & ->).
    destruct (IH (S idx) w1) as (w2 & ->). eauto.
Qed.


End BatchDriver.



(** * Further properties of the graph *)

Section GraphMore.
Context {RT : Runtime}.

(** Open the monadic definition of a node in a hypothesis. *)
Ltac open_step H :=
  unfold step, node_fn, router_node, retriever_node, planner_node,
    nl2sql_node, executor_node, synthesizer_node, validate_and_repair_node,
    Router_forward, NL2SQL_forward, Synthesizer_forward,
    mbind, M_bind, mret, M_ret in H;
  repeat case_match; simplify_eq.

Lemma generations_app (tr tr' : list TraceEntry) :
  generations (tr ++ tr') = generations tr + generations tr'.
Proof. unfold generations. by rewrite filter_app, length_app. Qed.

Lemma generations_one (e : TraceEntry) :
  generations [e] = match entry_node e with nl2sql => 1 | _ => 0 end.
Proof. by destruct e. Qed.

Lemma step_next n st w n' st' w' :
  step n st w = (inr (n', st'), w') → n' = next_node n st'.
Proof.
  unfold step, mbind, M_bind, mret, M_ret. intros H.
  destruct (node_fn n st w) as [[e|ws] w1]; by simplify_eq.
Qed.

Lemma step_trace n st w n' st' w' :
  n ≠ END → step n st w = (inr (n', st'), w') →
  ∃ e, State.trace st' = State.trace st ++ [e] ∧ entry_node e = n.
Proof. intros Hn H. destruct n; try done; open_step H; by eexists. Qed.

Lemma step_attempts n st w n' st' w' :
  n ≠ END → step n st w = (inr (n', st'), w') →
  State.attempts st' =
    State.attempts st + match n with executor => 1 | _ => 0 end.
Proof. intros Hn H. destruct n; try done; open_step H; simpl; lia. Qed.

Lemma step_inputs n st w n' st' w' :
  step n st w = (inr (n', st'), w') →
  State.id st' = State.id st ∧ State.question st' = State.question st
  ∧ State.format_hint st' = State.format_hint st.
Proof. intros H. destruct n; open_step H; done. Qed.

Lemma next_node_executor n st : next_node n st = executor ↔ n = nl2sql.
Proof.
  destruct n; simpl;
    unfold _route_after_router, _route_after_planner, _route_after_validation;
    repeat case_match; split; done.
Qed.

Lemma reaches_ind_start question_id question format_hint w0
    (P : Node → State.t → World → Prop) :
  P router (initial_state question_id question format_hint) w0 →
  (∀ n st w n' st' w',
     P n st w → n ≠ END → step n st w = (inr (n', st'), w') → P n' st' w') →
  ∀ n st w,
    reaches (start_config question_id question format_hint w0) (n, st, w) →
    P n st w.
Proof.
  intros H0 Hstep n st w H.
  remember (start_config question_id question format_hint w0) as c0 eqn:E0.
  remember (n, st, w) as c eqn:E. revert n st w E.
  induction H as [c|c m st1 w1 m' st1' w1' H IH Hm Hs]; intros n st w E.
  - subst. unfold start_config in E. by simplify_eq.
  - simplify_eq. eapply Hstep; [by eapply IH|done..].
Qed.

(** Every node execution appends one entry to the trace, tagged with the
    node that ran, and leaves the earlier entries as they were; so after
    [k] node executions from the start the trace has [k] entries. *)
Theorem trace_grows_by_one_entry :
  (∀ n st w n' st' w',
     n ≠ END → step n st w = (inr (n', st'), w') →
     ∃ e, State.trace st' = State.trace st ++ [e] ∧ entry_node e = n)
  ∧ (∀ k question_id question format_hint w0 n st w,
       steps k (start_config question_id question format_hint w0)
       = Some (n, st, w) →
       length (State.trace st) = k).
Proof.
  split; [exact step_trace|].
  intros k question_id question format_hint w0.
  assert (Hgen : ∀ k c n st w,
            steps k c = Some (n, st, w) →
            length (State.trace st) = length (State.trace c.1.2) + k).
  { clear k. induction k as [|k IH]; intros [[n0 st0] w1] n st w H; simpl in H.
    - simplify_eq. simpl. lia.
    - case_decide; [done|].
      destruct (step n0 st0 w1) as [[e|[n1 st1]] w2] eqn:Hs; [done|].
      apply IH in H. destruct (step_trace _ _ _ _ _ _ ltac:(done) Hs) as (e & He & _).
      simpl in *. rewrite He, length_app in H. simpl in H. lia. }
  intros n st w H. apply Hgen in H. simpl in H. lia.
Qed.


Lemma generation_count_step n st w n' st' w' :
  generation_count n st → n ≠ END →
  step n st w = (inr (n', st'), w') →
  generation_count n' st'.
Proof.
  unfold generation_count. intros Hg Hn Hs.
  destruct (step_trace _ _ _ _ _ _ Hn Hs) as (e & -> & He).
  rewrite (step_attempts _ _ _ _ _ _ Hn Hs), generations_app, generations_one, He, Hg.
  pose proof (next_node_executor n st') as Hx.
  rewrite <- (step_next _ _ _ _ _ _ Hs) in Hx.
  destruct (decide (n = nl2sql)) as [->|Hne].
  - rewrite (proj2 Hx eq_refl). lia.
  - assert (n' ≠ executor) by (intros E; by apply Hx in E).
    destruct n; try done; destruct n'; try done; lia.
Qed.

(** Query generation runs at most twice in a run (the first attempt and one
    repair): the trace never holds more than two nl2sql entries. *)
Theorem generation_runs_at_most_twice
    (question_id question format_hint : string) (w0 : World)
    (n : Node) (st : State.t) (w : World) :
  reaches (start_config question_id question format_hint w0) (n, st, w) →
  generations (State.trace st) ≤ 2.
Proof.
  intros H.
  assert (Hg : generation_count n st).
  { revert n st w H. apply reaches_ind_start; [done|].
    intros n st w n' st' w'. apply generation_count_step. }
  unfold generation_count in Hg. rewrite Hg.
  destruct (inv_run _ _ _ _ _ H) as [Hs|(m & w1 & _ & Hr)].
  - unfold start_config in Hs. simplify_eq. simpl. lia.
  - destruct Hr as [_ _ _ Hcap _ _ _ Hbudget _]. simpl in *.
    destruct n; try lia. assert (State.attempts st < 2) by auto. lia.
Qed.

End GraphMore.

(** ** How a run ends *)

Section Ending.
Context {RT : Runtime}.

Lemma validation_issues_merge_done (st : State.t) (d : bool) (tr : list TraceEntry) :
  validation_issues (merge st [WDone d; WTrace tr]) = validation_issues st.
Proof. reflexivity. Qed.

Lemma step_into_end n st w st' w' :
  n ≠ END → step n st w = (inr (END, st'), w') → n = validate_and_repair.
Proof.
  intros Hn Hs. apply step_next in Hs.
  destruct n; try done; simpl in Hs;
    unfold _route_after_router, _route_after_planner in Hs;
    by repeat case_match.
Qed.

Lemma invoke_reaches limit n st w st' w' :
  invoke limit n st w = Finished st' w' → reaches (n, st, w) (END, st', w').
Proof.
  revert n st w. induction limit as [|limit IH]; intros n st w H.
  - destruct n; simpl in H; simplify_eq. apply reaches_refl.
  - destruct (decide (n = END)) as [->|Hn].
    + simpl in H. simplify_eq. apply reaches_refl.
    + destruct (step n st w) as [[e|[n1 st1]] w1] eqn:Hs.
      * destruct n; try done; cbn [invoke] in H; by rewrite Hs in H.
      * rewrite (invoke_step _ _ _ _ _ _ _ Hn Hs) in H.
        eapply reaches_front; [done..|]. by apply IH.
Qed.

(** From [validate_and_repair] the graph ends exactly when the validator
    found no issue or [attempts] has reached 2; the node never raises and
    leaves the outside world alone. *)
Theorem validation_ends_run (st : State.t) (w : World) :
  ∃ n' st',
    step validate_and_repair st w = (inr (n', st'), w)
    ∧ (n' = END ↔ validation_issues st = [] ∨ 2 ≤ State.attempts st)
    ∧ State.done st' = bool_decide (n' = END).
Proof.
  rewrite step_validate. eexists _, _. split; [reflexivity|].
  unfold _route_after_validation. cbn -[Nat.leb bool_decide validation_issues].
  destruct (bool_decide (validation_issues st = [])) eqn:Hi;
    [apply bool_decide_eq_true in Hi|apply bool_decide_eq_false in Hi];
    destruct (2 <=? State.attempts st) eqn:Ha;
    [apply Nat.leb_le in Ha|apply Nat.leb_gt in Ha
    |apply Nat.leb_le in Ha|apply Nat.leb_gt in Ha]; simpl.
  1-3: split; [split; auto|done].
  split; [|by repeat case_match].
  split; [by repeat case_match|]. intros [?|?]; [done|lia].
Qed.

(** A run that finishes has [done] set, and if it finishes before the cap
    on [attempts] the validator found no issue in the final state: then
    modes "rag" and "hybrid" have a citation, and modes "sql" and "hybrid"
    have a result without error and with a row. *)
Theorem finished_run_is_valid_or_capped
    (limit : nat) (question_id question format_hint : string) (w0 : World)
    (st : State.t) (w : World) :
  run limit question_id question format_hint w0 = Finished st w →
  State.done st = true
  ∧ (State.attempts st < 2 →
     validation_issues st = []
     ∧ (State.mode st ∈ ["rag"; "hybrid"] → State.citations st ≠ [])
     ∧ (State.mode st ∈ ["sql"; "hybrid"] →
        result_error (State.sql_result st) = None
        ∧ result_rows (State.sql_result st) ≠ [])).
Proof.
  intros H. apply invoke_reaches in H.
  remember (router, initial_state question_id question format_hint, w0) as c0 eqn:E0.
  remember (END, st, w) as c eqn:E.
  destruct H as [c|c n st1 w1 n' st1' w1' H Hn Hs]; [by simplify_eq|].
  simplify_eq. clear H.
  pose proof (step_into_end _ _ _ _ _ Hn Hs) as ->.
  rewrite step_validate in Hs. apply (f_equal fst) in Hs. simpl in Hs.
  injection Hs as Hroute Hst. rewrite Hst in Hroute.
  set (d := bool_decide (validation_issues st1 = []) || (2 <=? State.attempts st1)) in *.
  assert (Hd : State.done st = d) by (by rewrite <- Hst).
  assert (Ha : State.attempts st = State.attempts st1) by (by rewrite <- Hst).
  assert (Hv : validation_issues st = validation_issues st1) by (by rewrite <- Hst).
  assert (Hdone : d = true).
  { unfold _route_after_validation in Hroute. rewrite Hd, Ha in Hroute.
    destruct d eqn:Ed; [done|]. unfold d in Ed.
    apply orb_false_iff in Ed as [_ Ed]. rewrite Ed in Hroute.
    by repeat case_match. }
  split; [by rewrite Hd|]. intros Hlt. rewrite Ha in Hlt.
  assert (Hnil : validation_issues st = []).
  { rewrite Hv. unfold d in Hdone. apply orb_true_iff in Hdone as [Hi|Hc].
    - by apply bool_decide_eq_true in Hi.
    - apply Nat.leb_le in Hc. lia. }
  split; [done|].
  destruct (validation_issues_nil _ Hnil) as [Hcit Hsql]. split.
  - intros Hm Hc. unfold citation_issues in Hcit.
    rewrite (bool_decide_eq_true_2 _ Hm), (bool_decide_eq_true_2 _ Hc) in Hcit.
    done.
  - intros Hm. unfold sql_issues in Hsql.
    rewrite (bool_decide_eq_true_2 _ Hm) in Hsql.
    destruct (result_error _); [done|].
    destruct (result_rows _); [done|]. by split.
Qed.

(** The executor never raises into the graph: whatever the engine does, the
    step returns, moves on to the synthesizer, stores what [execute_sql]
    returned and adds exactly one to [attempts]. *)
Theorem executor_step_always_returns (st : State.t) (w : World) :
  ∃ r st' w',
    step executor st w = (inr (synthesizer, st'), w')
    ∧ SQLiteTool.execute_sql (State.sql st) w = (inr r, w')
    ∧ State.sql_result st' = Some r
    ∧ State.attempts st' = State.attempts st + 1
    ∧ State.sql st' = State.sql st.
Proof.
  destruct (execute_sql_returns (State.sql st) w) as (r & w' & Hr).
  eexists r, _, w'. split.
  { unfold step, node_fn, executor_node, mbind, M_bind, mret, M_ret.
    rewrite Hr. reflexivity. }
  split; [exact Hr|]. by split; [|split].
Qed.

End Ending.

(** ** Stripping *)

Section Stripping.

Lemma lstrip_starts_clean (s : string) : starts_clean (Py.lstrip s).
Proof.
  induction s as [|c s IH]; simpl; [done|].
  by destruct (Py.isspace c) eqn:E.
Qed.

Lemma lstrip_of_clean (s : string) : starts_clean s → Py.lstrip s = s.
Proof. destruct s as [|c s]; simpl; [done|]. by intros ->. Qed.

Lemma rstrip_starts_clean (s : string) :
  starts_clean s → starts_clean (Py.rstrip s).
Proof.
  destruct s as [|c s]; simpl; [done|]. intros Hc.
  destruct (Py.rstrip s); simpl; by rewrite ?Hc.
Qed.

Lemma rstrip_idem (s : string) : Py.rstrip (Py.rstrip s) = Py.rstrip s.
Proof.
  induction s as [|c s IH]; simpl; [done|].
  destruct (Py.rstrip s) as [|d r] eqn:E.
  - destruct (Py.isspace c) eqn:Hc; simpl; [done|]. by rewrite Hc.
  - simpl in *. by rewrite IH.
Qed.

Lemma strip_idem (s : string) : Py.strip (Py.strip s) = Py.strip s.
Proof.
  unfold Py.strip.
  rewrite (lstrip_of_clean (Py.rstrip (Py.lstrip s))).
  - apply rstrip_idem.
  - apply rstrip_starts_clean, lstrip_starts_clean.
Qed.

Lemma strip_space_cons (s : string) : Py.strip (String " " s) = Py.strip s.
Proof. reflexivity. Qed.

End Stripping.

(** ** Citations *)

Section Citations.
Context {RT : Runtime}.

Local Arguments Ascii.eqb : simpl never.

Lemma contains_cons (needle : string) (c : ascii) (s : string) :
  Py.contains needle (String c s)
  = Py.startswith needle (String c s) || Py.contains needle s.
Proof. reflexivity. Qed.

Lemma contains_delim_lstrip (s : string) :
  Py.contains "::" s = true → Py.contains "::" (Py.lstrip s) = true.
Proof.
  induction s as [|c s IH]; [done|]. simpl Py.lstrip.
  destruct (Py.isspace c) eqn:Hc; [|done].
  rewrite contains_cons. intros H. apply IH.
  apply orb_true_iff in H as [H|H]; [|done].
  simpl in H. apply andb_true_iff in H as [H _].
  apply Ascii.eqb_eq in H. by subst c.
Qed.

Lemma rstrip_colon (s : string) :
  ∃ r, Py.rstrip (String ":" s) = String ":" r ∧ r = Py.rstrip s.
Proof. simpl. destruct (Py.rstrip s); by eexists. Qed.

Lemma contains_delim_rstrip (s : string) :
  Py.contains "::" s = true → Py.contains "::" (Py.rstrip s) = true.
Proof.
  induction s as [|c s IH]; [done|].
  rewrite contains_cons. intros H. apply orb_true_iff in H as [H|H].
  - destruct s as [|c2 s]; [simpl in H; by rewrite andb_false_r in H|].
    simpl in H. apply andb_true_iff in H as [H1 H2].
    apply andb_true_iff in H2 as [H2 _].
    apply Ascii.eqb_eq in H1, H2. subst c c2.
    destruct (rstrip_colon s) as (r & Hr & _).
    destruct (rstrip_colon (String ":" s)) as (r' & Hr' & Hr'').
    rewrite Hr', Hr'', Hr. reflexivity.
  - specialize (IH H). simpl.
    destruct (Py.rstrip s) as [|d r]; [done|].
    rewrite contains_cons, IH. apply orb_true_r.
Qed.

Lemma contains_delim_strip (s : string) :
  Py.contains "::" s = true → Py.contains "::" (Py.strip s) = true.
Proof. intros H. by apply contains_delim_rstrip, contains_delim_lstrip. Qed.

Lemma split_lacks (c : ascii) (s : string) : lacks c s = true → Py.split c s = [s].
Proof.
  induction s as [|d s IH]; simpl; [done|].
  intros H. apply andb_true_iff in H as [Hd Hs]. apply negb_true_iff in Hd.
  by rewrite Hd, (IH Hs).
Qed.

Lemma split_app (c : ascii) (a b : string) :
  lacks c a = true → Py.split c (a +:+ String c b) = a :: Py.split c b.
Proof.
  induction a as [|d a IH]; simpl.
  - by rewrite Ascii.eqb_refl.
  - intros H. apply andb_true_iff in H as [Hd Ha]. apply negb_true_iff in Hd.
    by rewrite Hd, (IH Ha).
Qed.

Lemma lacks_app (c : ascii) (a b : string) :
  lacks c (a +:+ b) = lacks c a && lacks c b.
Proof. induction a as [|d a IH]; simpl; [done|]. by rewrite IH, andb_assoc. Qed.

Lemma string_app_assoc (a b c : string) : a +:+ b +:+ c = (a +:+ b) +:+ c.
Proof.
  induction a as [|d a IH]; [done|].
  change (String d (a +:+ b +:+ c) = String d ((a +:+ b) +:+ c)).
  by rewrite IH.
Qed.

Lemma join_cons_cons (sep b b' : string) (rest : list string) :
  Py.join sep (b :: b' :: rest) = b +:+ sep +:+ Py.join sep (b' :: rest).
Proof. reflexivity. Qed.

Lemma split_join_from (p b : string) (rest : list string) :
  lacks "," p = true → Forall (λ x, lacks "," x = true) (b :: rest) →
  Py.split "," (p +:+ Py.join ", " (b :: rest))
  = (p +:+ b) :: ((λ x, String " " x) <$> rest).
Proof.
  revert p b. induction rest as [|b' rest IH]; intros p b Hp Hall.
  - apply Forall_cons in Hall as [Hb _].
    change (Py.join ", " [b]) with b.
    apply split_lacks. by rewrite lacks_app, Hp, Hb.
  - apply Forall_cons in Hall as [Hb Hall].
    rewrite join_cons_cons, string_app_assoc.
    change (", " +:+ Py.join ", " (b' :: rest))
      with (String "," (String " " EmptyString +:+ Py.join ", " (b' :: rest))).
    rewrite split_app by (by rewrite lacks_app, Hp, Hb).
    f_equal. by apply (IH (String " " EmptyString) b').
Qed.

(** Every citation [Synthesizer.forward] keeps holds the "::" delimiter and
    has no surrounding whitespace; model output that is not text gives no
    citation.  And the parsing undoes the usual rendering: when the model
    answers with citation ids joined by ", ", each of them holding "::",
    free of commas and of surrounding whitespace, the parsed list is that
    list of ids. *)
Theorem citations_are_delimited_ids (raw : PyObj) :
  (∀ c, c ∈ parse_citations raw →
        Py.contains "::" c = true ∧ Py.strip c = c)
  ∧ (py_as_str raw = None → parse_citations raw = [])
  ∧ (∀ ids,
       py_as_str raw = Some (Py.join ", " ids) →
       Forall (λ id, Py.contains "::" id = true ∧ lacks "," id = true
                     ∧ Py.strip id = id) ids →
       parse_citations raw = ids).
Proof.
  unfold parse_citations. split; [|split].
  - intros c. destruct (py_as_str raw) as [s|]; [|by rewrite elem_of_nil].
    rewrite list_elem_of_fmap. intros (t & -> & Ht).
    apply list_elem_of_filter in Ht as [Ht _].
    split; [by apply contains_delim_strip|apply strip_idem].
  - by intros ->.
  - intros ids -> Hids. destruct ids as [|a rest]; [done|].
    pose proof (split_join_from "" a rest eq_refl) as Hsplit.
    change ("" +:+ Py.join ", " (a :: rest)) with (Py.join ", " (a :: rest)) in Hsplit.
    change ("" +:+ a) with a in Hsplit.
    rewrite Hsplit by (eapply Forall_impl; [exact Hids|]; by intros ? (_ & ? & _)).
    apply Forall_cons in Hids as [(Ha1 & _ & Ha3) Hrest].
    rewrite filter_cons_True by done. rewrite fmap_cons, Ha3. f_equal.
    clear Hsplit. induction Hrest as [|b rest (Hb1 & _ & Hb3) _ IH]; [done|].
    rewrite fmap_cons, filter_cons_True.
    + rewrite fmap_cons, strip_space_cons, Hb3. by f_equal.
    + rewrite contains_cons, Hb1. apply orb_true_r.
Qed.

(** The query [nl2sql_node] stores has no leading or trailing whitespace. *)
Theorem stored_sql_is_stripped (st : State.t) (w w' : World) (ws : list Write) :
  nl2sql_node st w = (inr ws, w') →
  Py.strip (State.sql (merge st ws)) = State.sql (merge st ws).
Proof.
  intros H. destruct (nl2sql_node_returns _ _ _ _ H) as (schema & w1 & raw & _ & _ & ->).
  simpl. unfold clean_sql. apply strip_idem.
Qed.

(** Past the router the mode of a run is always one of "rag", "sql" and
    "hybrid": whatever the model answers that is none of them after
    lower-casing and stripping is replaced by "hybrid". *)
Theorem mode_is_always_valid :
  (∀ question_id question format_hint w0 n st w,
     reaches (start_config question_id question format_hint w0) (n, st, w) →
     n ≠ router → State.mode st ∈ ["rag"; "sql"; "hybrid"])
  ∧ (∀ question w raw w',
       router_predict question w = (inr raw, w') →
       Py.strip (Py.lower raw) ∉ ["rag"; "sql"; "hybrid"] →
       Router_forward question w = (inr "hybrid", w')).
Proof.
  split.
  - intros question_id question format_hint w0 n st w H Hn.
    destruct (inv_run _ _ _ _ _ H) as [Hs|(m & w1 & _ & Hr)].
    + unfold start_config in Hs. by simplify_eq.
    + destruct Hr as [<- Hv _ _ _ _ _ _ _]. exact Hv.
  - intros question w raw w' Hp Hm.
    unfold Router_forward, mbind, M_bind, mret, M_ret. rewrite Hp.
    by rewrite (bool_decide_eq_false_2 _ Hm).
Qed.

End Citations.

(** ** The date pattern *)

Section Dates.

Lemma match_literal_take (lit s rest : string) :
  DateRe.match_literal lit s = Some rest →
  Py.lower (Py.take (String.length lit) s) = Py.lower lit.
Proof.
  revert s. induction lit as [|a lit IH]; intros [|b s] H; simpl in *; try done.
  destruct (Ascii.eqb (Py.lower_char a) (Py.lower_char b)) eqn:E; [|done].
  apply Ascii.eqb_eq in E. unfold Py.lower in *. simpl.
  by rewrite E, (IH _ H).
Qed.

Lemma match_months_group (ms : list string) (s group : string) (len : nat) :
  DateRe.match_months ms s = Some (group, len) →
  ∃ m, m ∈ ms ∧ Py.lower group = Py.lower m.
Proof.
  induction ms as [|m ms IH]; simpl; [done|].
  destruct (DateRe.match_literal m s) as [r|] eqn:Hl; simpl.
  - destruct (DateRe.match_tail r) as [rest|] eqn:Ht.
    + intros H. simplify_eq. exists m. split; [left|].
      by eapply match_literal_take.
    + intros H. destruct (IH H) as (m' & Hm' & Hg). exists m'. split; [by right|done].
  - intros H. destruct (IH H) as (m' & Hm' & Hg). exists m'. split; [by right|done].
Qed.

Lemma scan_groups (skip : nat) (prev : option ascii) (s g : string) :
  g ∈ DateRe.scan skip prev s →
  ∃ m, m ∈ DateRe.months ∧ Py.lower g = Py.lower m.
Proof.
  revert skip prev. induction s as [|c s IH]; intros skip prev; simpl.
  - by rewrite elem_of_nil.
  - destruct skip as [|k]; [|apply IH].
    destruct (DateRe.match_at prev (String c s)) as [[group len]|] eqn:Hm;
      [|apply IH].
    rewrite elem_of_cons. intros [->|H]; [|by eapply IH].
    unfold DateRe.match_at in Hm. destruct (DateRe.word_boundary _ _); [|done].
    by eapply match_months_group.
Qed.


End Dates.


(** ** Chunking of documents *)

Section Chunking.

Lemma string_app_inv_head (a b c : string) : a +:+ b = a +:+ c → b = c.
Proof.
  induction a as [|d a IH]; [done|]. intros H.
  change (String d (a +:+ b) = String d (a +:+ c)) in H.
  apply IH. by injection H.
Qed.

Lemma contains_app_r (needle a b : string) :
  Py.contains needle b = true → Py.contains needle (a +:+ b) = true.
Proof.
  intros H. induction a as [|d a IH]; [done|].
  change (String d a +:+ b) with (String d (a +:+ b)).
  rewrite contains_cons, IH. apply orb_true_r.
Qed.

Lemma length_lstrip (s : string) : String.length (Py.lstrip s) ≤ String.length s.
Proof. induction s as [|c s IH]; simpl; [done|]. destruct (Py.isspace c); simpl; lia. Qed.

Lemma length_rstrip (s : string) : String.length (Py.rstrip s) ≤ String.length s.
Proof.
  induction s as [|c s IH]; simpl; [done|].
  destruct (Py.rstrip s); [destruct (Py.isspace c)|]; simpl in *; lia.
Qed.

Lemma length_strip (s : string) : String.length (Py.strip s) ≤ String.length s.
Proof.
  unfold Py.strip. etrans; [apply length_rstrip|apply length_lstrip].
Qed.

Lemma split_paragraphs_length (in_gap : bool) (s : string) :
  Forall (λ p, String.length p ≤ String.length s)
    (RAG.split_paragraphs_from in_gap s).
Proof.
  revert in_gap. induction s as [|c s IH]; intros in_gap; simpl.
  - by repeat constructor.
  - assert (Hpush : ∀ g, Forall (λ p, String.length p ≤ S (String.length s))
                       (RAG.push_char c (RAG.split_paragraphs_from g s))).
    { intros g. specialize (IH g).
      destruct (RAG.split_paragraphs_from g s) as [|p ps]; simpl.
      - apply Forall_cons; split; [simpl; lia|constructor].
      - apply Forall_cons in IH as [Hp Hps]. apply Forall_cons; split; [simpl; lia|].
        eapply Forall_impl; [exact Hps|]. simpl. lia. }
    assert (Hweak : ∀ g, Forall (λ p, String.length p ≤ S (String.length s))
                       (RAG.split_paragraphs_from g s)).
    { intros g. eapply Forall_impl; [apply IH|]. simpl. lia. }
    destruct (RAG.is_newline c); [|apply Hpush].
    destruct in_gap; [apply Hweak|].
    destruct (RAG.newline_next s); [|apply Hpush].
    apply Forall_cons; split; [simpl; lia|apply Hweak].
Qed.

Lemma chunks_from_lookup (base_name source : string) (n : nat)
    (paragraphs : list string) (i : nat) (c : DocChunk.t) :
  RAG.chunks_from base_name source n paragraphs !! i = Some c →
  DocChunk.id c = base_name +:+ "::chunk" +:+ pretty (n + i)
  ∧ DocChunk.source c = source
  ∧ DocChunk.score c = PyFloat.zero
  ∧ 20 ≤ String.length (DocChunk.content c)
  ∧ Py.strip (DocChunk.content c) = DocChunk.content c
  ∧ ∃ para, para ∈ paragraphs ∧ DocChunk.content c = Py.strip para.
Proof.
  revert n i. induction paragraphs as [|para rest IH]; intros n i H; [done|].
  simpl in H. destruct (String.length (Py.strip para) <? 20) eqn:Hlen.
  - destruct (IH _ _ H) as (?&?&?&?&?& p & Hp & ?).
    repeat split; try done. exists p. split; [by right|done].
  - apply Nat.ltb_ge in Hlen. destruct i as [|i]; simpl in H.
    + simplify_eq. simpl. rewrite Nat.add_0_r.
      repeat split; try done; [apply strip_idem|]. exists para. split; [left|done].
    + destruct (IH _ _ H) as (Hid &?&?&?&?& p & Hp & ?).
      replace (n + S i) with (S n + i) by lia.
      repeat split; try done. exists p. split; [by right|done].
Qed.

Lemma chunks_from_ids (base_name source : string) (n : nat)
    (paragraphs : list string) :
  DocChunk.id <$> RAG.chunks_from base_name source n paragraphs
  = (λ k, base_name +:+ "::chunk" +:+ pretty k)
      <$> seq n (length (RAG.chunks_from base_name source n paragraphs)).
Proof.
  revert n. induction paragraphs as [|para rest IH]; intros n; [done|].
  simpl. destruct (String.length (Py.strip para) <? 20); [apply IH|].
  simpl. f_equal. apply IH.
Qed.

Lemma chunk_id_inj (base_name : string) :
  Inj (=) (=) (λ k : nat, base_name +:+ "::chunk" +:+ pretty k).
Proof.
  intros a b H. apply string_app_inv_head in H.
  apply (string_app_inv_head "::chunk") in H. by apply (inj pretty).
Qed.


(** Within a document no two chunks share an id, and every id holds the
    "::" delimiter that citation parsing looks for. *)
Theorem chunk_ids_are_distinct_citations (content source : string) :
  NoDup (DocChunk.id <$> RAG._split_into_chunks content source)
  ∧ Forall (λ c, Py.contains "::" (DocChunk.id c) = true)
      (RAG._split_into_chunks content source).
Proof.
  unfold RAG._split_into_chunks. split.
  - rewrite chunks_from_ids. apply NoDup_fmap_2; [apply chunk_id_inj|].
    apply NoDup_seq.
  - apply Forall_lookup. intros i c Hc.
    destruct (chunks_from_lookup _ _ _ _ _ _ Hc) as (-> & _).
    by apply contains_app_r.
Qed.

Lemma split_chunks_short (content source : string) :
  String.length content < 20 → RAG._split_into_chunks content source = [].
Proof.
  intros Hlen. unfold RAG._split_into_chunks, RAG.split_paragraphs.
  pose proof (split_paragraphs_length false content) as Hall.
  generalize 1 as n.
  induction Hall as [|para rest Hp _ IH]; intros n; [done|]. simpl.
  pose proof (length_strip para).
  assert (Hlt : (String.length (Py.strip para) <? 20) = true)
    by (apply Nat.ltb_lt; lia).
  rewrite Hlt. apply IH.
Qed.

End Chunking.


(** ** Loading the corpus and retrieving from it *)

Section Corpus.

Variable read_file : string → option string.

Lemma file_chunks_nodup (filename : string) :
  NoDup (DocChunk.id <$>
    match read_file filename with
    | None => []
    | Some content => RAG._split_into_chunks content filename
    end).
Proof.
  destruct (read_file filename) as [content|]; [|constructor].
  unfold RAG._split_into_chunks. rewrite chunks_from_ids.
  apply NoDup_fmap_2; [apply chunk_id_inj|apply NoDup_seq].
Qed.

Lemma file_chunks_spec (filename : string) (c : DocChunk.t) :
  filename ∈ RAG.markdown_files →
  c ∈ match read_file filename with
      | None => []
      | Some content => RAG._split_into_chunks content filename
      end →
  first_char (DocChunk.id c) = first_char filename
  ∧ DocChunk.source c = filename
  ∧ read_file filename ≠ None
  ∧ DocChunk.score c = PyFloat.zero
  ∧ 20 ≤ String.length (DocChunk.content c).
Proof.
  intros Hf Hc. destruct (read_file filename) as [content|];
    [|by apply elem_of_nil in Hc].
  apply list_elem_of_lookup_1 in Hc as [i Hi].
  unfold RAG._split_into_chunks in Hi.
  apply chunks_from_lookup in Hi as (Hid & Hsrc & Hsc & Hlen & _).
  split; [|done].
  rewrite Hid. unfold RAG.markdown_files in Hf.
  repeat (apply elem_of_cons in Hf as [->|Hf]; [reflexivity|]).
  by apply elem_of_nil in Hf.
Qed.

Lemma files_chunks_nodup (files : list string) :
  files ⊆ RAG.markdown_files →
  NoDup (first_char <$> files) →
  NoDup (DocChunk.id <$> (files ≫= λ filename,
    match read_file filename with
    | None => []
    | Some content => RAG._split_into_chunks content filename
    end)).
Proof.
  induction files as [|f files IH]; intros Hsub Hnd; [constructor|].
  rewrite bind_cons, fmap_app. rewrite fmap_cons in Hnd.
  apply NoDup_cons in Hnd as [Hf Hnd].
  apply NoDup_app. split; [apply file_chunks_nodup|]. split.
  - intros x Hx Hx'.
    apply list_elem_of_fmap in Hx as (c & -> & Hc).
    apply list_elem_of_fmap in Hx' as (c' & Heq & Hc').
    apply list_elem_of_bind in Hc' as (f' & Hc' & Hf').
    apply file_chunks_spec in Hc as (Hc & _); [|apply Hsub; left].
    apply file_chunks_spec in Hc' as (Hc' & _); [|by apply Hsub; right].
    apply Hf. rewrite <- Hc, Heq, Hc'. by apply list_elem_of_fmap_2.
  - apply IH; [|done]. intros x Hx. apply Hsub. by right.
Qed.

(** The chunk ids of the loaded corpus are pairwise distinct, also across
    files, and every chunk names as its source one of the four documents,
    a file that exists, with a zero score and at least 20 characters of
    content. *)
Theorem corpus_ids_are_distinct :
  NoDup (DocChunk.id <$> RAG.load_chunks read_file)
  ∧ Forall (λ c, DocChunk.source c ∈ RAG.markdown_files
               ∧ read_file (DocChunk.source c) ≠ None
               ∧ DocChunk.score c = PyFloat.zero
               ∧ 20 ≤ String.length (DocChunk.content c))
      (RAG.load_chunks read_file).
Proof.
  split.
  - apply files_chunks_nodup; [done|].
    unfold RAG.markdown_files. rewrite !fmap_cons. simpl.
    repeat (apply NoDup_cons; split;
      [rewrite ?elem_of_cons, elem_of_nil; intros H;
       repeat (destruct H as [H|H]; [discriminate H|]); exact H|]).
    constructor.
  - apply Forall_forall. intros c Hc. unfold RAG.load_chunks in Hc.
    apply list_elem_of_bind in Hc as (f & Hc & Hf).
    destruct (file_chunks_spec f c Hf Hc) as (_ & Hsrc & Hread & Hsc & Hlen).
    by rewrite Hsrc.
Qed.

End Corpus.

Section Retrieval.

Variable Index : Type.
Variable fit_transform : list string → Index.
Variable similarities : Index → string → list pyfloat.
Variable argsort : list pyfloat → list nat.

Lemma last_k_length {A} (k : nat) (l : list A) :
  length (RAG.last_k k l) = if decide (k = 0) then length l else k `min` length l.
Proof.
  destruct k as [|k]; [done|]. rewrite decide_False by done.
  unfold RAG.last_k. rewrite length_drop. lia.
Qed.

Lemma last_k_lookup {A} (k : nat) (l : list A) (i : nat) :
  RAG.last_k k l !! i = l !! (length l - length (RAG.last_k k l) + i).
Proof.
  destruct k as [|k]; simpl.
  - by rewrite Nat.sub_diag.
  - rewrite lookup_drop, length_drop. f_equal. lia.
Qed.

Lemma last_k_sublist {A} (k : nat) (l : list A) : RAG.last_k k l `sublist_of` l.
Proof. destruct k; [done|apply sublist_drop]. Qed.

Lemma collect_inr (cs : list DocChunk.t) (sims : list pyfloat)
    (indices : list nat) (results : list DocChunk.t) :
  RAG.collect cs sims indices = inr results →
  length results = length indices
  ∧ ∀ i x, results !! i = Some x →
      ∃ idx chunk,
        indices !! i = Some idx ∧ cs !! idx = Some chunk
        ∧ sims !! idx = Some (DocChunk.score x)
        ∧ DocChunk.id x = DocChunk.id chunk
        ∧ DocChunk.source x = DocChunk.source chunk
        ∧ DocChunk.content x = DocChunk.content chunk.
Proof.
  revert results. induction indices as [|idx rest IH]; intros results; simpl.
  - intros [= <-]. split; [done|]. intros i x H. by destruct i.
  - destruct (cs !! idx) as [chunk|] eqn:Hc; [|done].
    destruct (sims !! idx) as [s|] eqn:Hs; [|done].
    destruct (RAG.collect cs sims rest) as [e|rs]; [done|].
    intros [= <-]. destruct (IH rs eq_refl) as [Hlen Hall].
    split; [simpl; by rewrite Hlen|].
    intros [|i] x Hx.
    + injection Hx as <-. by exists idx, chunk.
    + by apply Hall.
Qed.

Lemma collect_succeeds (cs : list DocChunk.t) (sims : list pyfloat)
    (indices : list nat) :
  Forall (λ idx, idx < length cs ∧ idx < length sims) indices →
  ∃ results, RAG.collect cs sims indices = inr results.
Proof.
  induction 1 as [|idx rest [Hc Hs] _ [rs IH]]; simpl; [by eexists|].
  apply lookup_lt_is_Some_2 in Hc as [c ->].
  apply lookup_lt_is_Some_2 in Hs as [s ->].
  rewrite IH. by eexists.
Qed.

Lemma retrieve_unfold (r : RAG.retriever Index) (question : string) (k : nat)
    (vectors : Index) :
  RAG.chunk_vectors Index r = Some vectors →
  RAG.chunks Index r ≠ [] →
  RAG.retrieve Index similarities argsort r question k
  = RAG.collect (RAG.chunks Index r) (similarities vectors question)
      (reverse (RAG.last_k k (argsort (similarities vectors question)))).
Proof.
  intros Hv Hne. unfold RAG.retrieve. rewrite Hv.
  by destruct (RAG.chunks Index r).
Qed.

(** With no document long enough to give a chunk (or no document at all),
    the retriever is built without an index and every retrieval returns the
    empty list instead of failing. *)
Theorem retrieval_without_corpus_is_empty
    (read_file : string → option string) (question : string) (k : nat) :
  (∀ filename content,
     read_file filename = Some content → String.length content < 20) →
  RAG.chunk_vectors Index (RAG.load Index fit_transform read_file) = None
  ∧ RAG.retrieve Index similarities argsort (RAG.load Index fit_transform read_file) question k = inr [].
Proof.
  intros Hshort.
  assert (Hnil : RAG.load_chunks read_file = []).
  { apply elem_of_nil_inv. intros c Hc. unfold RAG.load_chunks in Hc.
    apply list_elem_of_bind in Hc as (f & Hc & _).
    destruct (read_file f) as [content|] eqn:Hr; [|by apply elem_of_nil in Hc].
    rewrite (split_chunks_short content f) in Hc by eauto.
    by apply elem_of_nil in Hc. }
  unfold RAG.retrieve, RAG.load. simpl. by rewrite Hnil.
Qed.

(** When the index exists, the similarity row has one entry per chunk and
    [argsort] returns a permutation of the positions, a retrieval succeeds
    and returns [min k n] results out of [n] chunks (all [n] when [k] is 0,
    the slice [-0:] being the whole list); each result is a chunk of the
    corpus carrying its own similarity as score, and no chunk is returned
    twice. *)
Theorem retrieval_returns_scored_chunks
    (r : RAG.retriever Index) (question : string) (k : nat) (vectors : Index) :
  RAG.chunk_vectors Index r = Some vectors →
  length (similarities vectors question) = length (RAG.chunks Index r) →
  argsort (similarities vectors question)
    ≡ₚ seq 0 (length (RAG.chunks Index r)) →
  ∃ results,
    RAG.retrieve Index similarities argsort r question k = inr results
    ∧ length results
      = (if decide (k = 0) then length (RAG.chunks Index r)
         else k `min` length (RAG.chunks Index r))
    ∧ (∀ x, x ∈ results →
         ∃ idx chunk,
           RAG.chunks Index r !! idx = Some chunk
           ∧ similarities vectors question !! idx = Some (DocChunk.score x)
           ∧ DocChunk.id x = DocChunk.id chunk
           ∧ DocChunk.source x = DocChunk.source chunk
           ∧ DocChunk.content x = DocChunk.content chunk)
    ∧ (NoDup (DocChunk.id <$> RAG.chunks Index r) →
       NoDup (DocChunk.id <$> results)).
Proof.
  intros Hv Hlen Hperm.
  set (cs := RAG.chunks Index r) in *.
  set (sims := similarities vectors question) in *.
  set (indices := reverse (RAG.last_k k (argsort sims))).
  assert (Hsub : RAG.last_k k (argsort sims) `sublist_of` argsort sims)
    by apply last_k_sublist.
  assert (Hin : ∀ idx, idx ∈ indices → idx < length cs).
  { intros idx Hidx. unfold indices in Hidx. rewrite elem_of_reverse in Hidx.
    apply (elem_of_submseteq _ (argsort sims)) in Hidx;
      [|by apply sublist_submseteq].
    rewrite Hperm in Hidx.
    apply elem_of_seq in Hidx. lia. }
  assert (Hnd : NoDup indices).
  { unfold indices. rewrite reverse_Permutation.
    eapply sublist_NoDup; [|exact Hsub].
    rewrite Hperm. apply NoDup_seq. }
  assert (Hcount : length indices
                   = if decide (k = 0) then length cs else k `min` length cs).
  { unfold indices. rewrite length_reverse, last_k_length.
    by rewrite (Permutation_length Hperm), length_seq. }
  destruct (decide (cs = [])) as [Hnil|Hne].
  { exists []. unfold RAG.retrieve. fold cs. rewrite Hnil.
    split; [done|]. split; [|split].
    - rewrite Hnil in Hcount. simpl in Hcount. rewrite Nat.min_0_r in Hcount.
      simpl. rewrite Nat.min_0_r. by destruct (decide (k = 0)).
    - intros x Hx. by apply elem_of_nil in Hx.
    - intros _. constructor. }
  destruct (collect_succeeds cs sims indices) as [results Hres].
  { apply Forall_forall. intros idx Hidx. rewrite Hlen. split; by apply Hin. }
  exists results. rewrite (retrieve_unfold r question k vectors Hv Hne).
  fold cs sims indices.
  destruct (collect_inr cs sims indices results Hres) as [Hl Hall].
  split; [done|]. split; [by rewrite Hl|]. split.
  - intros x Hx. apply list_elem_of_lookup_1 in Hx as [i Hi].
    destruct (Hall i x Hi) as (idx & chunk & _ & H). by exists idx, chunk.
  - intros Hids. apply NoDup_alt. intros i j y Hi Hj.
    rewrite list_lookup_fmap in Hi, Hj.
    destruct (results !! i) as [x|] eqn:Hx; [|done].
    destruct (results !! j) as [x'|] eqn:Hx'; [|done].
    simpl in Hi, Hj. injection Hi as Hi. injection Hj as Hj.
    destruct (Hall i x Hx) as (a & ca & Hia & Hca & _ & Hida & _).
    destruct (Hall j x' Hx') as (b & cb & Hib & Hcb & _ & Hidb & _).
    assert (a = b) as <-.
    { eapply (NoDup_lookup _ _ _ _ Hids);
        rewrite list_lookup_fmap; [by rewrite Hca|rewrite Hcb]; simpl.
      by rewrite <- Hidb, Hj, <- Hi, Hida. }
    by eapply (NoDup_lookup _ _ _ _ Hnd).
Qed.

(** When [argsort] orders the positions by ascending similarity, the
    results of a retrieval are in descending order of score: no result
    scores less than one that follows it. *)
Theorem retrieval_is_best_first
    (r : RAG.retriever Index) (question : string) (k : nat) (vectors : Index)
    (results : list DocChunk.t) :
  RAG.chunk_vectors Index r = Some vectors →
  (∀ i j a b sa sb,
     i ≤ j →
     argsort (similarities vectors question) !! i = Some a →
     argsort (similarities vectors question) !! j = Some b →
     similarities vectors question !! a = Some sa →
     similarities vectors question !! b = Some sb →
     PyFloat.lt sb sa = false) →
  RAG.retrieve Index similarities argsort r question k = inr results →
  ∀ i j x y,
    i ≤ j → results !! i = Some x → results !! j = Some y →
    PyFloat.lt (DocChunk.score x) (DocChunk.score y) = false.
Proof.
  intros Hv Hsorted Hres i j x y Hij Hx Hy.
  destruct (decide (RAG.chunks Index r = [])) as [Hnil|Hne].
  { unfold RAG.retrieve in Hres. rewrite Hnil in Hres.
    injection Hres as <-. by destruct i. }
  rewrite (retrieve_unfold r question k vectors Hv Hne) in Hres.
  set (sims := similarities vectors question) in *.
  apply collect_inr in Hres as [Hl Hall].
  destruct (Hall i x Hx) as (a & ca & Hia & _ & Hsa & _).
  destruct (Hall j y Hy) as (b & cb & Hib & _ & Hsb & _).
  apply reverse_lookup_Some in Hia as [Hia Hi].
  apply reverse_lookup_Some in Hib as [Hib Hj].
  rewrite last_k_lookup in Hia, Hib.
  eapply (Hsorted _ _ b a); [|done|done|done|done]. lia.
Qed.

End Retrieval.

Lemma trace_grows_by_one_entry_witness :
  match steps (RT := Script.runtime (Script.scenario "rag" "" "")) 4
          (start_config (RT := Script.runtime (Script.scenario "rag" "" ""))
             "q1" "Return policy?" "text" Script.untouched) with
  | Some (_, st, _) => length (State.trace st) = 4
  | None => False
  end.
Proof.
  destruct (steps 4 _) as [[[n st] w]|] eqn:E; [|eval_in E; discriminate E].
  exact (proj2 (trace_grows_by_one_entry
                  (RT := Script.runtime (Script.scenario "rag" "" "")))
           4 "q1" "Return policy?" "text" Script.untouched n st w E).
Defined.


Lemma generation_runs_at_most_twice_witness :
  match steps (RT := Script.runtime (Script.scenario "sql" "SELECT total FROM Orderz" "")) 10
          (start_config (RT := Script.runtime (Script.scenario "sql" "SELECT total FROM Orderz" ""))
             "q1" "Total of all orders?" "number" Script.untouched) with
  | Some (_, st, _) => generations (State.trace st) ≤ 2
  | None => False
  end.
Proof.
  destruct (steps 10 _) as [[[n st] w]|] eqn:E; [|eval_in E; discriminate E].
  exact (generation_runs_at_most_twice
           (RT := Script.runtime (Script.scenario "sql" "SELECT total FROM Orderz" ""))
           "q1" "Total of all orders?" "number" Script.untouched n st w
           (steps_reaches _ _ _ E)).
Defined.

Lemma finished_run_is_valid_or_capped_witness :
  match run (RT := Script.runtime (Script.scenario "sql" "SELECT total FROM Orders" ""))
          10 "q1" "Total of all orders?" "number" Script.untouched with
  | Finished st _ => State.done st = true ∧ validation_issues st = []
  | _ => False
  end.
Proof.
  set (rt := Script.runtime (Script.scenario "sql" "SELECT total FROM Orders" "")).
  destruct (run (RT := rt) 10 "q1" "Total of all orders?" "number" Script.untouched)
    as [st w|msg w|] eqn:E;
    [|eval_in E; discriminate E|eval_in E; discriminate E].
  destruct (finished_run_is_valid_or_capped (RT := rt) _ _ _ _ _ _ _ E)
    as [Hdone Hvalid].
  split; [exact Hdone|]. apply Hvalid.
  eval_in E. injection E as <- _. exact (le_n 2).
Defined.

Lemma citations_are_delimited_ids_witness :
  parse_citations (RT := Script.runtime (Script.scenario "rag" "" ""))
    "kpi_definitions::chunk1, catalog::chunk2"
  = ["kpi_definitions::chunk1"; "catalog::chunk2"].
Proof.
  apply (proj2 (proj2 (citations_are_delimited_ids
                         (RT := Script.runtime (Script.scenario "rag" "" ""))
                         "kpi_definitions::chunk1, catalog::chunk2"))
           ["kpi_definitions::chunk1"; "catalog::chunk2"]).
  - reflexivity.
  - apply Forall_cons; split; [split; [reflexivity|split; reflexivity]|].
    apply Forall_cons; split; [split; [reflexivity|split; reflexivity]|].
    constructor.
Defined.

Lemma stored_sql_is_stripped_witness :
  ∃ ws w',
    nl2sql_node
      (RT := Script.runtime
               (Script.scenario "sql" (Script.fenced "sql" "SELECT total FROM Orders") ""))
      (initial_state "q1" "Total of all orders?" "number") Script.untouched
    = (inr ws, w')
    ∧ Py.strip (State.sql (merge (initial_state "q1" "Total of all orders?" "number") ws))
      = State.sql (merge (initial_state "q1" "Total of all orders?" "number") ws).
Proof.
  set (rt := Script.runtime
               (Script.scenario "sql" (Script.fenced "sql" "SELECT total FROM Orders") "")).
  destruct (nl2sql_node (RT := rt)
              (initial_state "q1" "Total of all orders?" "number") Script.untouched)
    as [[e|ws] w'] eqn:Hn; [eval_in Hn; discriminate Hn|].
  exists ws, w'. split; [reflexivity|].
  exact (stored_sql_is_stripped (RT := rt) _ _ _ _ Hn).
Defined.

Lemma mode_is_always_valid_witness :
  match steps (RT := Script.runtime (Script.scenario "RAG " "" "")) 2
          (start_config (RT := Script.runtime (Script.scenario "RAG " "" ""))
             "q1" "Return policy?" "text" Script.untouched) with
  | Some (_, st, _) => State.mode st ∈ ["rag"; "sql"; "hybrid"]
  | None => False
  end.
Proof.
  destruct (steps 2 _) as [[[n st] w]|] eqn:E; [|eval_in E; discriminate E].
  apply (proj1 (mode_is_always_valid
                  (RT := Script.runtime (Script.scenario "RAG " "" "")))
           "q1" "Return policy?" "text" Script.untouched n st w
           (steps_reaches _ _ _ E)).
  eval_in E. injection E as <- _ _. discriminate.
Defined.

Lemma retrieval_without_corpus_is_empty_witness :
  RAG.retrieve (list string) Toy.similarities Toy.argsort
    (RAG.load (list string) (λ texts, texts)
       (λ filename, if String.eqb filename "catalog.md" then Some "# Catalog"
                    else None))
    "order" 4
  = inr [].
Proof.
  refine (proj2 (retrieval_without_corpus_is_empty (list string) (λ texts, texts)
                   Toy.similarities Toy.argsort
                   (λ filename, if String.eqb filename "catalog.md"
                                then Some "# Catalog" else None)
                   "order" 4 _)).
  intros filename content.
  destruct (String.eqb filename "catalog.md"); [|discriminate].
  intros [= <-]. apply Nat.ltb_lt. reflexivity.
Defined.

Lemma retrieval_returns_scored_chunks_witness :
  ∃ results,
    RAG.retrieve (list string) Toy.similarities Toy.argsort
      (RAG.load (list string) (λ texts, texts) Toy.docs) "order" 2
    = inr results
    ∧ length results = 2.
Proof.
  destruct (retrieval_returns_scored_chunks (list string) Toy.similarities
              Toy.argsort (RAG.load (list string) (λ texts, texts) Toy.docs)
              "order" 2
              (DocChunk.content <$> RAG.load_chunks Toy.docs))
    as (results & Hres & Hlen & _).
  - vm_compute. reflexivity.
  - vm_compute. reflexivity.
  - vm_compute.
    etrans; [apply Permutation_swap|]. apply Permutation_skip, Permutation_swap.
  - exists results. split; [exact Hres|]. vm_compute in Hlen. exact Hlen.
Defined.

Lemma retrieval_is_best_first_witness :
  match RAG.retrieve (list string) Toy.similarities Toy.argsort
          (RAG.load (list string) (λ texts, texts) Toy.docs) "order" 2 with
  | inr results =>
      ∀ i j x y,
        i ≤ j → results !! i = Some x → results !! j = Some y →
        PyFloat.lt (DocChunk.score x) (DocChunk.score y) = false
  | inl _ => False
  end.
Proof.
  destruct (RAG.retrieve _ _ _ _ _ _) as [e|results] eqn:Hres;
    [vm_compute in Hres; discriminate Hres|].
  apply (retrieval_is_best_first (list string) Toy.similarities Toy.argsort
           (RAG.load (list string) (λ texts, texts) Toy.docs) "order" 2
           (DocChunk.content <$> RAG.load_chunks Toy.docs) results);
    [vm_compute; reflexivity| |exact Hres].
  assert (Ha : Toy.argsort
                 (Toy.similarities
                    (DocChunk.content <$> RAG.load_chunks Toy.docs) "order")
               = [2; 0; 1]) by (vm_compute; reflexivity).
  assert (Hs : Toy.similarities
                 (DocChunk.content <$> RAG.load_chunks Toy.docs) "order"
               = [FFin 1; FFin 1; FFin 0]) by (vm_compute; reflexivity).
  rewrite Ha, Hs. clear Ha Hs Hres.
  intros i j a b sa sb Hij Hi Hj Hsa Hsb.
  destruct i as [|[|[|i]]]; simplify_eq/=;
    destruct j as [|[|[|j]]]; simplify_eq/=; try lia; reflexivity.
Defined.
